(** * SOČ Archive REST API: a shallow embedding of [app.py] and [models.py]

    The record store (the table [works]) is a list of rows in insertion
    order, the file store a finite map from paths to file contents.  Every
    request handler is a function from the state before the request to the
    outcome of the request and the state after it.  An outcome is either
    the response the handler returns or the exception that leaves it. *)

From stdpp Require Import base decidable option list strings pretty gmap fin_maps.
From Stdlib Require Import ZArith Ascii.

Local Open Scope string_scope.
Local Open Scope Z_scope.
Local Open Scope list_scope.

(** ** Python strings

    A [str] is modelled by the bytes of its UTF-8 encoding.  The functions
    below are the string operations the handlers use. *)

Module Str.

(** [s.startswith(p)] *)
Fixpoint startswith (s p : string) {struct p} : bool :=
  match p, s with
  | EmptyString, _ => true
  | String _ _, EmptyString => false
  | String c p', String d s' => if Ascii.eqb c d then startswith s' p' else false
  end.

(** [sub in s]: [sub] occurs in [s] at some position. *)
Fixpoint contains (s sub : string) : bool :=
  startswith s sub ||
  match s with
  | EmptyString => false
  | String _ s' => contains s' sub
  end.

(** One character of [s.lower()].  Only the letters A-Z have an image
    among the ASCII letters, and the bytes of a character outside ASCII
    are all above 127, so comparing the result with an ASCII word gives
    what Python gives. *)
Definition lower_char (c : ascii) : ascii :=
  let n := nat_of_ascii c in
  if (65 <=? n)%nat && (n <=? 90)%nat then ascii_of_nat (n + 32) else c.

(** [s.lower()] *)
Fixpoint lower (s : string) : string :=
  match s with
  | EmptyString => EmptyString
  | String c s' => String (lower_char c) (lower s')
  end.

(** [s.rsplit(sep, 1)] for a one-character separator: the text before the
    last separator and the text after it, or [s] alone when there is no
    separator. *)
Fixpoint rsplit1 (sep : ascii) (s : string) : list string :=
  match s with
  | EmptyString => [EmptyString]
  | String c s' =>
      match rsplit1 sep s' with
      | [t] => if Ascii.eqb c sep then [EmptyString; t] else [String c t]
      | h :: rest => String c h :: rest
      | [] => []
      end
  end.

(** [bool(s)] for a value that is [None] or a string: [None] and the
    empty string are false. *)
Definition truthy (o : option string) : bool :=
  match o with
  | None => false
  | Some s => negb (String.eqb s "")
  end.

(** [os.path.join(a, b)] for two components (posix). *)
Definition path_join (a b : string) : string :=
  if startswith b "/" then b
  else if (String.eqb a "" || startswith (String.rev a) "/")%bool then a +:+ b
  else a +:+ "/" +:+ b.

(** ["%0<w>d" % n] for a natural number: decimal, padded with zeros on the
    left up to width [w]. *)
Definition zfill (w : nat) (n : N) : string :=
  let s := pretty n in
  String.concat "" (replicate (w - String.length s) "0") +:+ s.

End Str.

(** ** Python values held in dictionaries

    The values of a JSON request body and of the dictionary [to_dict]
    builds.  [POther] stands for the JSON values no handler looks into
    (arrays, objects, numbers with a fraction), kept as their text. *)

Inductive pyval :=
  | PNone
  | PBool (b : bool)
  | PInt (n : Z)
  | PStr (s : string)
  | POther (text : string).

#[global] Instance pyval_eq_dec : EqDecision pyval.
Proof. solve_decision. Defined.

(** A dictionary built by a literal: keys in the order written. *)
Abbreviation dict := (list (string * pyval)).

Definition keys (d : dict) : list string := d.*1.


(** ** [datetime] *)

Record datetime := mkDatetime {
  dt_year : N; dt_month : N; dt_day : N;
  dt_hour : N; dt_minute : N; dt_second : N; dt_microsecond : N
}.

#[global] Instance datetime_eq_dec : EqDecision datetime.
Proof. solve_decision. Defined.

(** [datetime.isoformat()] of a naive datetime. *)
Definition isoformat (d : datetime) : string :=
  Str.zfill 4 (dt_year d) +:+ "-" +:+ Str.zfill 2 (dt_month d) +:+ "-" +:+
  Str.zfill 2 (dt_day d) +:+ "T" +:+ Str.zfill 2 (dt_hour d) +:+ ":" +:+
  Str.zfill 2 (dt_minute d) +:+ ":" +:+ Str.zfill 2 (dt_second d) +:+
  (if N.eqb (dt_microsecond d) 0 then ""
   else "." +:+ Str.zfill 6 (dt_microsecond d)).

(** ** models.py: [Work] *)

Module Work.

(** The columns of the table [works].  A nullable column is an [option];
    [approved], [gdpr_consent] and the two timestamps always hold the value
    their default gives them on insertion. *)
Record t := mk {
  id : Z;
  title : string;
  abstract : string;
  author_name : string;
  author_email : option string;
  year : Z;
  field : string;
  school : option string;
  region : option string;
  category : option string;
  pdf_filename : option string;
  approved : bool;
  gdpr_consent : bool;
  created_at : datetime;
  updated_at : datetime
}.

#[global] Instance eq_dec : EqDecision t.
Proof. solve_decision. Defined.

(** A nullable string column as a Python value. *)
Definition nullable (o : option string) : pyval :=
  match o with
  | None => PNone
  | Some s => PStr s
  end.

(** [Work.to_dict] *)
Definition to_dict (self : t) : dict :=
  [ ("id", PInt (id self));
    ("title", PStr (title self));
    ("abstract", PStr (abstract self));
    ("author_name", PStr (author_name self));
    ("year", PInt (year self));
    ("field", PStr (field self));
    ("school", nullable (school self));
    ("region", nullable (region self));
    ("category", nullable (category self));
    ("pdf_url",
       if Str.truthy (pdf_filename self)
       then PStr ("/api/works/" +:+ pretty (id self) +:+ "/pdf")
       else PNone);
    ("approved", PBool (approved self));
    ("created_at", PStr (isoformat (created_at self))) ].

(** Attribute assignments, [self.attr = value]. *)
Definition set_author_name (v : string) (self : t) : t :=
  mk (id self) (title self) (abstract self) v (author_email self) (year self)
     (field self) (school self) (region self) (category self) (pdf_filename self)
     (approved self) (gdpr_consent self) (created_at self) (updated_at self).

Definition set_author_email (v : option string) (self : t) : t :=
  mk (id self) (title self) (abstract self) (author_name self) v (year self)
     (field self) (school self) (region self) (category self) (pdf_filename self)
     (approved self) (gdpr_consent self) (created_at self) (updated_at self).

Definition set_pdf_filename (v : option string) (self : t) : t :=
  mk (id self) (title self) (abstract self) (author_name self) (author_email self)
     (year self) (field self) (school self) (region self) (category self) v
     (approved self) (gdpr_consent self) (created_at self) (updated_at self).

Definition set_approved (v : bool) (self : t) : t :=
  mk (id self) (title self) (abstract self) (author_name self) (author_email self)
     (year self) (field self) (school self) (region self) (category self)
     (pdf_filename self) v (gdpr_consent self) (created_at self) (updated_at self).

Definition set_updated_at (v : datetime) (self : t) : t :=
  mk (id self) (title self) (abstract self) (author_name self) (author_email self)
     (year self) (field self) (school self) (region self) (category self)
     (pdf_filename self) (approved self) (gdpr_consent self) (created_at self) v.

(** The object [Work(title=..., ...)] builds in [WorkList.post], before the
    session has written it: the ten keyword arguments, holding whatever
    the request body held. *)
Record transient := init {
  title_ : pyval;
  abstract_ : pyval;
  author_name_ : pyval;
  author_email_ : pyval;
  year_ : pyval;
  field_ : pyval;
  school_ : pyval;
  region_ : pyval;
  category_ : pyval;
  gdpr_consent_ : pyval
}.

End Work.

(** ** Outcomes of a request *)

(** The exceptions that leave a handler.  [NotFound] is werkzeug's, raised
    by [get_or_404] and answered with status 404; the others are not HTTP
    exceptions and the framework answers them with status 500. *)
Inductive exn :=
  | NotFound
  | KeyError (key : string)
  | FileNotFoundError (path : string)
  | StoreError.

(** The dictionary [Statistics.get] returns. *)
Record stats := mkStats {
  total_works : nat;
  approved_works : nat;
  works_by_year : gmap Z nat;
  works_by_field : gmap string nat
}.

(** What a response carries: a dictionary, a list of dictionaries (after
    [jsonify]), the statistics, or a file sent as an attachment. *)
Inductive body :=
  | BDict (d : dict)
  | BList (l : list dict)
  | BStats (s : stats)
  | BFile (download_name : string) (content : list Byte.byte).

(** A handler returns a response, with its status (200 when the handler
    names none), or an exception leaves it. *)
Inductive outcome :=
  | Returned (status : Z) (b : body)
  | Raised (e : exn).

(** The status the client receives. *)
Definition http_status (o : outcome) : Z :=
  match o with
  | Returned status _ => status
  | Raised NotFound => 404
  | Raised _ => 500
  end.

(** [{'message': text}] *)
Definition message (text : string) : body := BDict [("message", PStr text)].

(** Computations that may raise. *)
#[global] Instance exn_ret : MRet (sum exn) := λ _ x, inr x.
#[global] Instance exn_bind : MBind (sum exn) := λ _ _ f m,
  match m with
  | inl e => inl e
  | inr x => f x
  end.

(** ** The state: record store and file store *)

Record State := mkState {
  works : list Work.t;
  files : gmap string (list Byte.byte)
}.

(** The primary key: no two rows share an id. *)
Definition primary_key (st : State) : Prop := NoDup (Work.id <$> works st).

(** ** The record store's query interface *)

Module Query.

(** A condition evaluates on a row to true, false or NULL ([None]). *)
Abbreviation sql_bool := (option bool).

(** Modelled from the spec: the module [database] (the [db] handle of the
    record store) is not among the sources; section 4.1 gives
    [column.contains(text)] as substring match.  On a NULL column the
    condition is NULL.  The pattern characters and the case folding of the
    engine's LIKE are not modelled. *)
Definition contains (column : option string) (text : string) : sql_bool :=
  (λ v, Str.contains v text) <$> column.

(** Modelled from the spec: [column == text] on a string column is exact
    match (section 4.1); NULL on a NULL column. *)
Definition eq (column : option string) (text : string) : sql_bool :=
  (λ v, String.eqb v text) <$> column.

Definition digit (c : ascii) : option Z :=
  let n := nat_of_ascii c in
  if (48 <=? n)%nat && (n <=? 57)%nat then Some (Z.of_nat n - 48) else None.

Fixpoint digits (acc : Z) (s : string) : option Z :=
  match s with
  | EmptyString => Some acc
  | String c s' => d ← digit c; digits (10 * acc + d) s'
  end.

(** The integer a text denotes: an optional sign and at least one decimal
    digit; [None] for any other text.  The other spellings of a number the
    engine reads (blanks around it, a fraction, an exponent) are not
    modelled. *)
Definition int_of_text (s : string) : option Z :=
  match s with
  | EmptyString => None
  | String "-" (String _ _ as s') => Z.opp <$> digits 0 s'
  | String "+" (String _ _ as s') => digits 0 s'
  | _ => digits 0 s
  end.

(** Modelled from the spec: [column == text] on an integer column, the
    text being the request parameter as [app.py] passes it on.  Section
    4.1 gives exact match with the parameter read as an integer.  The store
    of [config.py] (SQLite) does that reading itself and raises nothing on
    a text that is no number: such a text equals no integer. *)
Definition eq_int (column : Z) (text : string) : sql_bool :=
  Some (bool_decide (int_of_text text = Some column)).

(** [db.or_(c1, ..., cn)] in SQL's three-valued logic. *)
Definition or_ (conds : list sql_bool) : sql_bool :=
  if bool_decide (Some true ∈ conds) then Some true
  else if bool_decide (None ∈ conds) then None
  else Some false.

(** [query.filter(cond)]: the rows on which the condition is true. *)
Definition filter (cond : Work.t → sql_bool) (query : list Work.t) : list Work.t :=
  List.filter (λ w, bool_decide (cond w = Some true)) query.

(** [query.filter_by(approved=True)] *)
Definition filter_by_approved (query : list Work.t) : list Work.t :=
  List.filter Work.approved query.

(** [query.count()] *)
Definition count (query : list Work.t) : nat := List.length query.

(** [db.session.query(key, db.func.count(Work.id)).group_by(key).all()]:
    one row per distinct key, with the number of works that have it. *)
Definition group_by_count `{EqDecision K} (key : Work.t → K) (query : list Work.t)
  : list (K * nat) :=
  (λ k, (k, List.length (List.filter (λ w, bool_decide (key w = k)) query)))
    <$> remove_dups (key <$> query).

(** [Work.query.get(work_id)], the lookup inside [get_or_404]. *)
Definition get (work_id : Z) (query : list Work.t) : option Work.t :=
  List.find (λ w, Z.eqb (Work.id w) work_id) query.

End Query.

(** [dict(rows)]: a later pair overrides an earlier one with the same key. *)
Definition py_dict `{Countable K} {V} (rows : list (K * V)) : gmap K V :=
  foldl (λ m kv, <[kv.1 := kv.2]> m) ∅ rows.

(** [Work.query.get_or_404(work_id)] *)
Definition get_or_404 (work_id : Z) (st : State) : exn + Work.t :=
  match Query.get work_id (works st) with
  | Some work => inr work
  | None => inl NotFound
  end.

(** [if param:] on a request parameter, with the parameter bound in the
    branch taken: an absent parameter and an empty one are both false. *)
Definition if_given {A} (param : option string) (then_ : string → A) (else_ : A) : A :=
  match param with
  | Some text => if Str.truthy (Some text) then then_ text else else_
  | None => else_
  end.

(** ** app.py: the handlers *)

(** [allowed_file] *)
Definition allowed_file (filename : string) : bool :=
  Str.contains filename "." &&
  match Str.rsplit1 "." filename !! 1%nat with
  | Some ext => bool_decide (Str.lower ext ∈ ["pdf"])
  | None => false
  end.

(** [WorkList.get]: [args] is [request.args]. *)
Definition WorkList_get (args : gmap string string) (st : State) : outcome * State :=
  let query := Query.filter_by_approved (works st) in
  let query :=
    if_given (args !! "search")
      (λ search, Query.filter (λ w, Query.or_ [
         Query.contains (Some (Work.title w)) search;
         Query.contains (Some (Work.abstract w)) search;
         Query.contains (Some (Work.author_name w)) search;
         Query.contains (Some (Work.field w)) search ]) query)
      query in
  let query :=
    if_given (args !! "field")
      (λ field, Query.filter (λ w, Query.eq (Some (Work.field w)) field) query) query in
  let query :=
    if_given (args !! "year")
      (λ year, Query.filter (λ w, Query.eq_int (Work.year w) year) query) query in
  let query :=
    if_given (args !! "school")
      (λ school, Query.filter (λ w, Query.contains (Work.school w) school) query) query in
  let query :=
    if_given (args !! "region")
      (λ region, Query.filter (λ w, Query.eq (Work.region w) region) query) query in
  let query :=
    if_given (args !! "category")
      (λ category, Query.filter (λ w, Query.eq (Work.category w) category) query) query in
  (Returned 200 (BList (Work.to_dict <$> query)), st).

(** [data[key]] on the request body. *)
Definition getitem (data : gmap string pyval) (key : string) : exn + pyval :=
  match data !! key with
  | Some v => inr v
  | None => inl (KeyError key)
  end.

(** [data.get(key, default)] *)
Definition get (data : gmap string pyval) (key : string) (default : pyval) : pyval :=
  match data !! key with
  | Some v => v
  | None => default
  end.

(** *** Writing a row

    What each column accepts on INSERT.  A value of another type than the
    column's is refused here (the engine's own conversions between types are
    not modelled), and so is NULL in a column declared [nullable=False]. *)
Definition string_column (v : pyval) : exn + string :=
  match v with
  | PStr s => inr s
  | _ => inl StoreError
  end.

Definition nullable_string_column (v : pyval) : exn + option string :=
  match v with
  | PStr s => inr (Some s)
  | PNone => inr None
  | _ => inl StoreError
  end.

Definition integer_column (v : pyval) : exn + Z :=
  match v with
  | PInt n => inr n
  | PBool b => inr (if b then 1 else 0)
  | _ => inl StoreError
  end.

(** A [Boolean] column with [default=False]: [None] leaves the column to
    its default; besides the two booleans the type accepts 0 and 1. *)
Definition boolean_column (v : pyval) : exn + bool :=
  match v with
  | PNone => inr false
  | PBool b => inr b
  | PInt 0 => inr false
  | PInt 1 => inr true
  | _ => inl StoreError
  end.

(** The id the store gives a new row: 1 in an empty table, else one more
    than the largest id. *)
Definition next_id (rows : list Work.t) : Z :=
  match Work.id <$> rows with
  | [] => 1
  | i :: ids => foldr Z.max i ids + 1
  end.

(** [db.session.add(work); db.session.commit()] for a new object: the row
    gets its id and the defaults of [models.py] ([approved] false, both
    timestamps the time of the insertion, no [pdf_filename]). *)
Definition add_commit (now : datetime) (work : Work.transient) (st : State)
  : exn + (Work.t * State) :=
  title ← string_column (Work.title_ work);
  abstract ← string_column (Work.abstract_ work);
  author_name ← string_column (Work.author_name_ work);
  author_email ← nullable_string_column (Work.author_email_ work);
  year ← integer_column (Work.year_ work);
  field ← string_column (Work.field_ work);
  school ← nullable_string_column (Work.school_ work);
  region ← nullable_string_column (Work.region_ work);
  category ← nullable_string_column (Work.category_ work);
  gdpr_consent ← boolean_column (Work.gdpr_consent_ work);
  let row := Work.mk (next_id (works st)) title abstract author_name author_email
                     year field school region category None false gdpr_consent
                     now now in
  mret (row, mkState (works st ++ [row]) (files st)).

(** [db.session.commit()] after assignments to a loaded row: the session
    writes an UPDATE only when some attribute differs from the value it
    loaded, and [onupdate] of [models.py] sets [updated_at] with that
    UPDATE. *)
Definition flush (now : datetime) (loaded assigned : Work.t) : Work.t :=
  if decide (assigned = loaded) then loaded else Work.set_updated_at now assigned.

Definition commit (now : datetime) (loaded assigned : Work.t) (st : State) : State :=
  mkState ((λ row, if decide (Work.id row = Work.id loaded)
                   then flush now loaded assigned else row) <$> works st)
          (files st).

(** [WorkList.post]: [data] is [request.get_json()], a JSON object. *)
Definition WorkList_post (now : datetime) (data : gmap string pyval) (st : State)
  : outcome * State :=
  let constructed :=
    title ← getitem data "title";
    abstract ← getitem data "abstract";
    author_name ← getitem data "author_name";
    let author_email := get data "author_email" PNone in
    year ← getitem data "year";
    field ← getitem data "field";
    let school := get data "school" PNone in
    let region := get data "region" PNone in
    let category := get data "category" PNone in
    let gdpr_consent := get data "gdpr_consent" (PBool false) in
    mret (Work.init title abstract author_name author_email year field
                    school region category gdpr_consent) in
  match constructed ≫= (λ work, add_commit now work st) with
  | inl e => (Raised e, st)
  | inr (work, st') => (Returned 201 (BDict (Work.to_dict work)), st')
  end.

(** [WorkDetail.get] *)
Definition WorkDetail_get (work_id : Z) (st : State) : outcome * State :=
  match get_or_404 work_id st with
  | inl e => (Raised e, st)
  | inr work => (Returned 200 (BDict (Work.to_dict work)), st)
  end.

(** [Config.UPLOAD_FOLDER] *)
Definition UPLOAD_FOLDER : string := "static/pdfs".

(** [os.path.basename] *)
Definition basename (path : string) : string :=
  default path (Str.rsplit1 "/" path !! 1%nat).

(** [send_file(path, as_attachment=True)]: opening a path that names no
    file raises [FileNotFoundError]. *)
Definition send_file (path : string) (st : State) : outcome :=
  match files st !! path with
  | Some content => Returned 200 (BFile (basename path) content)
  | None => Raised (FileNotFoundError path)
  end.

(** [WorkPDF.get] *)
Definition WorkPDF_get (work_id : Z) (st : State) : outcome * State :=
  match get_or_404 work_id st with
  | inl e => (Raised e, st)
  | inr work =>
      if negb (Str.truthy (Work.pdf_filename work))
      then (Returned 404 (message "PDF not available"), st)
      else
        let pdf_path := Str.path_join UPLOAD_FOLDER (default "" (Work.pdf_filename work)) in
        (send_file pdf_path st, st)
  end.

(** The marker [WorkGDPR.delete] writes over the author's name. *)
Definition ANONYMIZED : string := "Anonymizováno".

(** [WorkGDPR.delete] *)
Definition WorkGDPR_delete (now : datetime) (work_id : Z) (st : State) : outcome * State :=
  match get_or_404 work_id st with
  | inl e => (Raised e, st)
  | inr work =>
      let work' := Work.set_author_name ANONYMIZED work in
      let work' := Work.set_author_email None work' in
      (Returned 200 (message "Personal data removed"), commit now work work' st)
  end.

(** [WorkApproval.post] *)
Definition WorkApproval_post (now : datetime) (work_id : Z) (st : State) : outcome * State :=
  match get_or_404 work_id st with
  | inl e => (Raised e, st)
  | inr work =>
      let work' := Work.set_approved true work in
      (Returned 200 (message "Work approved"), commit now work work' st)
  end.

(** An uploaded file, werkzeug's [FileStorage]. *)
Record FileStorage := mkFile {
  filename : string;
  stream : list Byte.byte
}.

(** [file.save(filepath)] *)
Definition save (file : FileStorage) (filepath : string) (st : State) : State :=
  mkState (works st) (<[filepath := stream file]> (files st)).

Section Upload.

(** werkzeug's [secure_filename], which turns a name into a safe base
    name.  The handler only passes its result on. *)
Variable secure_filename : string → string.

(** [WorkPDFUpload.post]: [request_files] is [request.files]. *)
Definition WorkPDFUpload_post (now : datetime) (work_id : Z)
    (request_files : gmap string FileStorage) (st : State) : outcome * State :=
  match get_or_404 work_id st with
  | inl e => (Raised e, st)
  | inr work =>
      match request_files !! "pdf" with
      | None => (Returned 400 (message "No PDF file provided"), st)
      | Some file =>
          if String.eqb (filename file) ""
          then (Returned 400 (message "No file selected"), st)
          else if Str.truthy (Some (filename file)) && allowed_file (filename file)
          then
            let filename :=
              secure_filename ("work_" +:+ pretty work_id +:+ "_" +:+ filename file) in
            let filepath := Str.path_join UPLOAD_FOLDER filename in
            let st := save file filepath st in
            let work' := Work.set_pdf_filename (Some filename) work in
            (Returned 200 (message "PDF uploaded successfully"), commit now work work' st)
          else (Returned 400 (message "Invalid file type"), st)
      end
  end.

End Upload.

(** [Statistics.get] *)
Definition Statistics_get (st : State) : outcome * State :=
  let total_works := Query.count (works st) in
  let approved_works := Query.count (Query.filter_by_approved (works st)) in
  let years := Query.group_by_count Work.year (works st) in
  let fields := Query.group_by_count Work.field (works st) in
  (Returned 200 (BStats (mkStats total_works approved_works
                                 (py_dict years) (py_dict fields))), st).

(** [ExportData.get] *)
Definition ExportData_get (st : State) : outcome * State :=
  (Returned 200 (BList (Work.to_dict <$> works st)), st).

(** ** models.py: [Category] *)

Module Category.

(** The columns of the table [categories]. *)
Record t := mk {
  id : Z;
  name : string;
  description : option string
}.

(** [Category.to_dict] *)
Definition to_dict (self : t) : dict :=
  [ ("id", PInt (id self));
    ("name", PStr (name self));
    ("description", Work.nullable (description self)) ].

(** The object [Category(name=..., description=...)] builds, before the
    session has written it. *)
Record transient := init {
  name_ : pyval;
  description_ : pyval
}.

End Category.

(** The id the store gives a new category, by the rule of [next_id]. *)
Definition next_category_id (rows : list Category.t) : Z :=
  match Category.id <$> rows with
  | [] => 1
  | i :: ids => foldr Z.max i ids + 1
  end.

(** [db.session.add(category)] followed by the write of the row: [name] is
    declared [nullable=False]. *)
Definition add_category (category : Category.transient) (rows : list Category.t)
  : exn + (Category.t * list Category.t) :=
  name ← string_column (Category.name_ category);
  description ← nullable_string_column (Category.description_ category);
  let row := Category.mk (next_category_id rows) name description in
  mret (row, rows ++ [row]).



(** The list [sample_categories] of the start-up block. *)
Definition sample_categories : list Category.transient :=
  [ Category.init (PStr "Matematika") (PStr "Matematické práce");
    Category.init (PStr "Fyzika") (PStr "Fyzikální práce");
    Category.init (PStr "Informatika") (PStr "Informatické práce");
    Category.init (PStr "Biologie") (PStr "Biologické práce");
    Category.init (PStr "Chemie") (PStr "Chemické práce") ].

(** [db.session.add_all(objects); db.session.commit()]: the rows are
    written in the order of the list, all of them or none. *)
Fixpoint add_all (objects : list Category.transient) (rows : list Category.t)
  : exn + list Category.t :=
  match objects with
  | [] => inr rows
  | category :: objects' =>
      match add_category category rows with
      | inl e => inl e
      | inr (_, rows') => add_all objects' rows'
      end
  end.

(** The start-up block of [app.py] after [db.create_all()]: the sample
    categories are added if the table holds no category. *)
Definition initialize_database (categories : list Category.t)
  : exn + list Category.t :=
  if (List.length categories =? 0)%nat
  then add_all sample_categories categories
  else inr categories.

(** ** The routes of [app.py] on works

    One constructor per route and method; a request that changes a row
    carries the time of the call. *)
Inductive request :=
  | GET_works (args : gmap string string)
  | POST_works (now : datetime) (data : gmap string pyval)
  | GET_work (work_id : Z)
  | GET_work_pdf (work_id : Z)
  | DELETE_work_gdpr (now : datetime) (work_id : Z)
  | POST_admin_approve (now : datetime) (work_id : Z)
  | POST_admin_pdf (now : datetime) (work_id : Z)
      (request_files : gmap string FileStorage)
  | GET_admin_stats
  | GET_admin_export.

Section Routes.

Variable secure_filename : string → string.

(** The handler a request is routed to. *)
Definition handle (r : request) (st : State) : outcome * State :=
  match r with
  | GET_works args => WorkList_get args st
  | POST_works now data => WorkList_post now data st
  | GET_work work_id => WorkDetail_get work_id st
  | GET_work_pdf work_id => WorkPDF_get work_id st
  | DELETE_work_gdpr now work_id => WorkGDPR_delete now work_id st
  | POST_admin_approve now work_id => WorkApproval_post now work_id st
  | POST_admin_pdf now work_id request_files =>
      WorkPDFUpload_post secure_filename now work_id request_files st
  | GET_admin_stats => Statistics_get st
  | GET_admin_export => ExportData_get st
  end.

(** The state after a sequence of requests. *)
Definition run (requests : list request) (st : State) : State :=
  foldl (λ st r, (handle r st).2) st requests.

End Routes.

(** The archive before the first request: no work, no file. *)
Definition empty_archive : State := mkState [] ∅.

Section Responses.

Variable secure_filename : string → string.

(** The outcomes of a sequence of requests, one after the other. *)
Fixpoint responses (requests : list request) (st : State) : list outcome :=
  match requests with
  | [] => []
  | r :: requests' =>
      (handle secure_filename r st).1
      :: responses requests' (handle secure_filename r st).2
  end.

End Responses.

(** * Specification

    The vocabulary of the statements below, written from the words of the
    specification rather than from the code. *)

(** [sub] is a substring of [s]. *)
Definition substring (sub s : string) : Prop := ∃ l r, s = l +:+ sub +:+ r.

(** The character [sep] does not occur in [s]. *)
Fixpoint free_of (sep : ascii) (s : string) : Prop :=
  match s with
  | EmptyString => True
  | String c s' => c ≠ sep ∧ free_of sep s'
  end.

(** The file name ends in [.pdf], whatever the case of its letters. *)
Definition has_pdf_extension (filename : string) : Prop :=
  ∃ stem ext, filename = stem +:+ ext ∧ Str.lower ext = ".pdf".

(** The request gives parameter [key] the value [text]; an empty value
    counts as no value. *)
Definition supplied (args : gmap string string) (key text : string) : Prop :=
  args !! key = Some text ∧ text ≠ "".

(** A work the listing shows for the parameters [args], in the words of
    section 4.1: it is approved and passes every filter that is supplied. *)
Record visible (args : gmap string string) (w : Work.t) : Prop := mkVisible {
  visible_approved : Work.approved w = true;
  visible_search : ∀ text, supplied args "search" text →
    substring text (Work.title w) ∨ substring text (Work.abstract w) ∨
    substring text (Work.author_name w) ∨ substring text (Work.field w);
  visible_field : ∀ text, supplied args "field" text → Work.field w = text;
  visible_year : ∀ text, supplied args "year" text →
    Query.int_of_text text = Some (Work.year w);
  visible_school : ∀ text, supplied args "school" text →
    ∃ school, Work.school w = Some school ∧ substring text school;
  visible_region : ∀ text, supplied args "region" text → Work.region w = Some text;
  visible_category : ∀ text, supplied args "category" text →
    Work.category w = Some text
}.

(** The keys [WorkList.post] reads with [data[key]]. *)
Definition required : list string :=
  ["title"; "abstract"; "author_name"; "year"; "field"].

(** All the keys [WorkList.post] reads. *)
Definition read_keys : list string :=
  ["title"; "abstract"; "author_name"; "author_email"; "year"; "field";
   "school"; "region"; "category"; "gdpr_consent"].

(** What anonymization leaves of a row: every column but the author's
    name and e-mail address, and [updated_at]. *)
Record same_but_author (before after : Work.t) : Prop := mkSame {
  same_id : Work.id after = Work.id before;
  same_title : Work.title after = Work.title before;
  same_abstract : Work.abstract after = Work.abstract before;
  same_year : Work.year after = Work.year before;
  same_field : Work.field after = Work.field before;
  same_school : Work.school after = Work.school before;
  same_region : Work.region after = Work.region before;
  same_category : Work.category after = Work.category before;
  same_pdf_filename : Work.pdf_filename after = Work.pdf_filename before;
  same_approved : Work.approved after = Work.approved before;
  same_gdpr_consent : Work.gdpr_consent after = Work.gdpr_consent before;
  same_created_at : Work.created_at after = Work.created_at before
}.

(** The row holds no personal data of the author any more. *)
Definition anonymous (w : Work.t) : Prop :=
  Work.author_name w = ANONYMIZED ∧ Work.author_email w = None.

#[global] Instance anonymous_dec w : Decision (anonymous w).
Proof. unfold anonymous. apply _. Defined.

(** The upload passes the three checks of [WorkPDFUpload.post]: a file is
    sent under the name [pdf], it has a file name, and the file name ends
    in [.pdf]. *)
Definition accepted (request_files : gmap string FileStorage) : Prop :=
  ∃ file, request_files !! "pdf" = Some file ∧ filename file ≠ "" ∧
          has_pdf_extension (filename file).

(** The number of works whose [key] is [k]. *)
Definition works_with `{EqDecision K} (key : Work.t → K) (k : K)
    (rows : list Work.t) : nat :=
  length (filter (λ w, key w = k) rows).

(** The conditions of [WorkList.get], collected from the code: they link
    the handler to [visible]. *)

(** The condition one [if param: query = query.filter(cond)] step puts on
    a row. *)
Definition step_cond (param : option string) (cond : string → Work.t → Query.sql_bool)
    (w : Work.t) : bool :=
  if_given param (λ text, bool_decide (cond text w = Some true)) true.

(** The conjunction of the conditions [WorkList.get] puts on a row. *)
Definition listed (args : gmap string string) (w : Work.t) : bool :=
  Work.approved w
  && step_cond (args !! "search") (λ search w, Query.or_ [
       Query.contains (Some (Work.title w)) search;
       Query.contains (Some (Work.abstract w)) search;
       Query.contains (Some (Work.author_name w)) search;
       Query.contains (Some (Work.field w)) search ]) w
  && step_cond (args !! "field") (λ field w, Query.eq (Some (Work.field w)) field) w
  && step_cond (args !! "year") (λ year w, Query.eq_int (Work.year w) year) w
  && step_cond (args !! "school") (λ school w, Query.contains (Work.school w) school) w
  && step_cond (args !! "region") (λ region w, Query.eq (Work.region w) region) w
  && step_cond (args !! "category") (λ category w, Query.eq (Work.category w) category) w.

(** ** Vocabulary of the further properties *)

(** What approval leaves of a row: every column but [approved] and
    [updated_at]. *)
Record same_but_approved (before after : Work.t) : Prop := mkSameApproved {
  approved_id : Work.id after = Work.id before;
  approved_title : Work.title after = Work.title before;
  approved_abstract : Work.abstract after = Work.abstract before;
  approved_author_name : Work.author_name after = Work.author_name before;
  approved_author_email : Work.author_email after = Work.author_email before;
  approved_year : Work.year after = Work.year before;
  approved_field : Work.field after = Work.field before;
  approved_school : Work.school after = Work.school before;
  approved_region : Work.region after = Work.region before;
  approved_category : Work.category after = Work.category before;
  approved_pdf_filename : Work.pdf_filename after = Work.pdf_filename before;
  approved_gdpr_consent : Work.gdpr_consent after = Work.gdpr_consent before;
  approved_created_at : Work.created_at after = Work.created_at before
}.



(** The first required key that the body lacks, in the order in which
    [WorkList.post] reads them. *)
Fixpoint first_missing (data : gmap string pyval) (keys : list string) : option string :=
  match keys with
  | [] => None
  | key :: keys' =>
      match data !! key with
      | None => Some key
      | Some _ => first_missing data keys'
      end
  end.

(** The object [WorkList.post] builds from the body. *)
Definition work_of_body (data : gmap string pyval) : exn + Work.transient :=
  title ← getitem data "title";
  abstract ← getitem data "abstract";
  author_name ← getitem data "author_name";
  year ← getitem data "year";
  field ← getitem data "field";
  mret (Work.init title abstract author_name (get data "author_email" PNone)
                  year field (get data "school" PNone) (get data "region" PNone)
                  (get data "category" PNone) (get data "gdpr_consent" (PBool false))).

(** The row anonymization assigns. *)
Definition anonymized (work : Work.t) : Work.t :=
  Work.set_author_email None (Work.set_author_name ANONYMIZED work).

(** The changes of state the routes make: none, one row appended with the
    next id, or one of three updates of a row that get by id finds; the
    attachment also writes the file. *)
Inductive effect (st : State) : State → Prop :=
  | effect_none : effect st st
  | effect_insert row :
      Work.id row = next_id (works st) →
      Work.approved row = false → Work.pdf_filename row = None →
      effect st (mkState (works st ++ [row]) (files st))
  | effect_anonymize now loaded :
      Query.get (Work.id loaded) (works st) = Some loaded →
      effect st (commit now loaded (anonymized loaded) st)
  | effect_approve now loaded :
      Query.get (Work.id loaded) (works st) = Some loaded →
      effect st (commit now loaded (Work.set_approved true loaded) st)
  | effect_attach now loaded name content :
      Query.get (Work.id loaded) (works st) = Some loaded →
      effect st (commit now loaded (Work.set_pdf_filename (Some name) loaded)
                   (mkState (works st)
                      (<[Str.path_join UPLOAD_FOLDER name := content]> (files st)))).

(** What every request keeps of a row: the columns set at creation, and
    the three steps of the lifecycle once they are taken. *)
Record kept (before after : Work.t) : Prop := mkKept {
  kept_id : Work.id after = Work.id before;
  kept_title : Work.title after = Work.title before;
  kept_abstract : Work.abstract after = Work.abstract before;
  kept_year : Work.year after = Work.year before;
  kept_field : Work.field after = Work.field before;
  kept_school : Work.school after = Work.school before;
  kept_region : Work.region after = Work.region before;
  kept_category : Work.category after = Work.category before;
  kept_gdpr_consent : Work.gdpr_consent after = Work.gdpr_consent before;
  kept_created_at : Work.created_at after = Work.created_at before;
  kept_approved : Work.approved before = true → Work.approved after = true;
  kept_anonymous : anonymous before → anonymous after;
  kept_attachment : is_Some (Work.pdf_filename before) →
                    is_Some (Work.pdf_filename after)
}.


(** [sum(d.values())] *)
Definition sum_values `{Countable K} (d : gmap K nat) : nat :=
  sum_list (map_to_list d).*2.

(** The columns of a row other than [author_email], [gdpr_consent] and
    [updated_at]. *)
Definition public (w : Work.t) :=
  (Work.id w, Work.title w, Work.abstract w, Work.author_name w, Work.year w,
   Work.field w, Work.school w, Work.region w, Work.category w,
   Work.pdf_filename w, Work.approved w, Work.created_at w).

(** Two states that differ at most in the columns [author_email],
    [gdpr_consent] and [updated_at] of their rows. *)
Definition same_public (st1 st2 : State) : Prop :=
  public <$> works st1 = public <$> works st2 ∧ files st1 = files st2.

(** * Example data *)

Definition t0 : datetime := mkDatetime 2024 1 2 3 4 5 0.
Definition t1 : datetime := mkDatetime 2024 6 7 8 9 10 17.

(** An approved work without an attachment. *)
Definition fotony : Work.t :=
  Work.mk 1 "Fotony" "O fotonech" "Jana" (Some "jana@skola.cz") 2023 "Fyzika"
          (Some "Gymnazium Brno") (Some "JMK") None None true true t0 t0.

(** A work that is not approved; its attachment is not in the file store
    of [archive]. *)
Definition kyseliny : Work.t :=
  Work.mk 2 "Kyseliny" "O kyselinach" "Petr" None 2024 "Chemie"
          None None None (Some "work_2_prace.pdf") false false t0 t0.


Definition archive : State := mkState [fotony; kyseliny] ∅.

(** A request body with the five required fields. *)
Definition prace : gmap string pyval :=
  {[ "title" := PStr "Prvocisla"; "abstract" := PStr "O prvocislech";
     "author_name" := PStr "Eva"; "year" := PInt 2024; "field" := PStr "Matematika" ]}.

(** The same body with two keys the handler does not read. *)
Definition prace_self_approved : gmap string pyval :=
  <["approved" := PBool true]> (<["pdf_filename" := PStr "x.pdf"]> prace).

Definition upload_txt : gmap string FileStorage :=
  {[ "pdf" := mkFile "prace.txt" [Byte.x25; Byte.x50] ]}.

(** The archive with both works approved. *)
Definition archive_public : State :=
  mkState [fotony; Work.set_approved true kyseliny] ∅.

Definition upload_pdf : gmap string FileStorage :=
  {[ "pdf" := mkFile "prace.PDF" [Byte.x25; Byte.x50; Byte.x44; Byte.x46] ]}.

(** The row the create request with the body [prace] adds to [archive]. *)
Definition prvocisla : Work.t :=
  Work.mk 3 "Prvocisla" "O prvocislech" "Eva" None 2024 "Matematika"
          None None None None false false t1 t1.


(** The categories the start-up block writes into an empty table. *)
Definition seeded : list Category.t :=
  [ Category.mk 1 "Matematika" (Some "Matematické práce");
    Category.mk 2 "Fyzika" (Some "Fyzikální práce");
    Category.mk 3 "Informatika" (Some "Informatické práce");
    Category.mk 4 "Biologie" (Some "Biologické práce");
    Category.mk 5 "Chemie" (Some "Chemické práce") ].

(** * Properties *)

(** Membership in a list written out. *)
Ltac in_list :=
  repeat first [apply list_elem_of_here | apply list_elem_of_further].

(** ** Strings *)

Lemma append_cons c (s t : string) : String c s +:+ t = String c (s +:+ t).
Proof. reflexivity. Qed.

Lemma append_nil_l (s : string) : "" +:+ s = s.
Proof. reflexivity. Qed.

Lemma startswith_spec s p : Str.startswith s p = true ↔ ∃ r, s = p +:+ r.
Proof.
  revert s. induction p as [|c p IH]; intros s; simpl.
  - split; [intros _; by exists s | done].
  - destruct s as [|d s]; [split; [done | intros [r Hr]; discriminate] |].
    destruct (Ascii.eqb_spec c d) as [->|Hcd].
    + rewrite IH. split; intros [r Hr]; exists r.
      * by rewrite append_cons, <- Hr.
      * rewrite append_cons in Hr. congruence.
    + split; [done | intros [r Hr]]. rewrite append_cons in Hr. congruence.
Qed.

Lemma contains_spec s sub : Str.contains s sub = true ↔ substring sub s.
Proof.
  unfold substring. induction s as [|c s IH]; simpl.
  - rewrite orb_false_r, startswith_spec. split.
    + intros [r Hr]. by exists "", r.
    + intros [[|d l] [r Hr]]; [by exists r | discriminate].
  - rewrite orb_true_iff, startswith_spec, IH. split.
    + intros [[r Hr] | (l & r & Hr)].
      * by exists "", r.
      * exists (String c l), r. by rewrite append_cons, <- Hr.
    + intros ([|d l] & r & Hr).
      * left. by exists r.
      * right. exists l, r. rewrite append_cons in Hr. congruence.
Qed.

Lemma rsplit1_free sep s : free_of sep s → Str.rsplit1 sep s = [s].
Proof.
  induction s as [|c s IH]; simpl; [done|]. intros [Hc Hs].
  rewrite (IH Hs). by destruct (Ascii.eqb_spec c sep).
Qed.

Lemma rsplit1_last sep l r :
  free_of sep r → Str.rsplit1 sep (l +:+ String sep r) = [l; r].
Proof.
  intros Hr. induction l as [|c l IH].
  - rewrite append_nil_l. simpl. rewrite (rsplit1_free _ _ Hr).
    by rewrite Ascii.eqb_refl.
  - rewrite append_cons. simpl. by rewrite IH.
Qed.

(** [rsplit1] either finds no separator, or splits at the last one. *)
Lemma rsplit1_shape sep s :
  (free_of sep s ∧ Str.rsplit1 sep s = [s]) ∨
  (∃ l r, s = l +:+ String sep r ∧ free_of sep r ∧ Str.rsplit1 sep s = [l; r]).
Proof.
  induction s as [|c s IH]; [by left|].
  destruct IH as [[Hfree Heq] | (l & r & -> & Hfree & Heq)].
  - destruct (decide (c = sep)) as [->|Hne].
    + right. exists "", s. split_and!; [done..|]. by apply (rsplit1_last _ "").
    + left. split; [done|]. by apply rsplit1_free.
  - right. exists (String c l), r. split_and!; [done..|].
    by apply (rsplit1_last _ (String c l)).
Qed.

Lemma lower_char_dot c : Str.lower_char c = "."%char ↔ c = "."%char.
Proof.
  split; [|by intros ->].
  destruct c as [[] [] [] [] [] [] [] []]; vm_compute; congruence.
Qed.

Lemma lower_free_dot s : free_of "." (Str.lower s) → free_of "." s.
Proof.
  induction s as [|c s IH]; simpl; [done|]. intros [Hc Hs]. split; [|auto].
  intros ->. by apply Hc.
Qed.

(** [allowed_file] accepts exactly the names that end in [.pdf], whatever
    the case of the letters. *)
Lemma allowed_file_spec filename :
  allowed_file filename = true ↔ has_pdf_extension filename.
Proof.
  unfold allowed_file, has_pdf_extension. split.
  - intros [Hdot Hext]%andb_true_iff.
    destruct (rsplit1_shape "." filename) as [[_ Heq] | (l & r & -> & _ & Heq)];
      rewrite Heq in Hext; simpl in Hext; [done|].
    apply bool_decide_eq_true in Hext. apply list_elem_of_singleton in Hext.
    exists l, (String "." r). split; [done|]. simpl. by rewrite Hext.
  - intros (stem & ext & -> & Hlow).
    destruct ext as [|c ext]; [done|]. simpl in Hlow.
    injection Hlow as Hc Hlow. apply lower_char_dot in Hc as ->.
    assert (free_of "." ext) as Hfree.
    { apply lower_free_dot. rewrite Hlow. simpl. by split_and!. }
    rewrite rsplit1_last by done. simpl. rewrite Hlow.
    apply andb_true_iff. split; [|by apply bool_decide_eq_true, list_elem_of_singleton].
    apply contains_spec. by exists stem, ext.
Qed.

(** ** Lists and dictionaries *)

Lemma filter_filter {A} (f g : A → bool) l :
  List.filter g (List.filter f l) = List.filter (λ x, f x && g x) l.
Proof.
  induction l as [|x l IH]; simpl; [done|].
  destruct (f x); simpl; [destruct (g x)|]; by rewrite IH.
Qed.

Lemma filter_decide {A} (f : A → bool) (P : A → Prop) `{∀ x, Decision (P x)} l :
  (∀ x, f x = true ↔ P x) → List.filter f l = filter P l.
Proof.
  intros Hf. induction l as [|x l IH]; [done|]. simpl.
  rewrite filter_cons. destruct (decide (P x)) as [HP|HP].
  - apply Hf in HP. by rewrite HP, IH.
  - destruct (f x) eqn:E; [by apply Hf in E|done].
Qed.

Lemma filter_length_decide {A} (P : A → Prop) `{∀ x, Decision (P x)} (l : list A) :
  List.length (List.filter (λ x, bool_decide (P x)) l) = length (filter P l).
Proof. by rewrite (filter_decide _ P) by (intros; apply bool_decide_eq_true). Qed.

Lemma foldl_insert_lookup `{Countable K} {V} (rows : list (K * V)) (m : gmap K V) k v :
  NoDup rows.*1 →
  foldl (λ m kv, <[kv.1 := kv.2]> m) m rows !! k = Some v
  ↔ (k, v) ∈ rows ∨ ((k ∉ rows.*1) ∧ m !! k = Some v).
Proof.
  revert m. induction rows as [|[k' v'] rows IH]; intros m; simpl.
  - intros _. rewrite elem_of_nil. split.
    + intros ?. right. split; [apply not_elem_of_nil | done].
    + by intros [[]|[_ ?]].
  - intros [Hfresh Hnodup]%NoDup_cons. rewrite (IH _ Hnodup).
    rewrite !elem_of_cons. destruct (decide (k = k')) as [->|Hne].
    + rewrite lookup_insert_eq. split.
      * intros [Hin|[_ [= ->]]]; [|by left; left].
        destruct Hfresh. apply list_elem_of_fmap. by exists (k', v).
      * intros [[[= ->]|Hin]|[Hno _]].
        -- right. by split.
        -- destruct Hfresh. apply list_elem_of_fmap. by exists (k', v).
        -- destruct Hno. by left.
    + rewrite lookup_insert_ne by done. split.
      * intros [Hin|[Hno Hm]]; [by left; right|]. right. split; [|done].
        by intros [?|?].
      * intros [[[= -> _]|Hin]|[Hno Hm]]; [done | by left |].
        right. split; [|done]. intros ?. apply Hno. by right.
Qed.

(** On rows with distinct keys, [dict(rows)] holds exactly the rows. *)
Lemma py_dict_lookup `{Countable K} {V} (rows : list (K * V)) k v :
  NoDup rows.*1 → py_dict rows !! k = Some v ↔ (k, v) ∈ rows.
Proof.
  intros Hnodup. unfold py_dict. rewrite foldl_insert_lookup by done.
  rewrite lookup_empty. split; [by intros [?|[_ ?]] | by left].
Qed.

(** ** Computations that may raise *)

Lemma bind_inr {A B} (m : exn + A) (f : A → exn + B) y :
  m ≫= f = inr y ↔ ∃ x, m = inr x ∧ f x = inr y.
Proof.
  destruct m as [e|x]; simpl.
  - split; [done | by intros (? & ? & _)].
  - split; [eauto | by intros (? & [= <-] & ?)].
Qed.

(** ** The record store *)

Lemma get_Some work_id rows work :
  Query.get work_id rows = Some work → work ∈ rows ∧ Work.id work = work_id.
Proof.
  unfold Query.get. intros [Hin Hid]%find_some. split.
  - by apply list_elem_of_In.
  - by apply Z.eqb_eq.
Qed.

Lemma get_primary_key rows work :
  NoDup (Work.id <$> rows) → work ∈ rows → Query.get (Work.id work) rows = Some work.
Proof.
  unfold Query.get. induction rows as [|row rows IH]; [by intros _ ?%elem_of_nil|].
  rewrite fmap_cons. intros [Hfresh Hnodup]%NoDup_cons Hin. simpl.
  destruct (Z.eqb_spec (Work.id row) (Work.id work)) as [Heq|Hne].
  - apply elem_of_cons in Hin as [->|Hin]; [done|].
    destruct Hfresh. rewrite Heq. by apply list_elem_of_fmap_2.
  - apply elem_of_cons in Hin as [->|Hin]; [done | by apply IH].
Qed.

Lemma foldr_max_ge (i : Z) ids x : x ∈ i :: ids → (x <= foldr Z.max i ids)%Z.
Proof.
  induction ids as [|j ids IH]; simpl.
  - intros ->%list_elem_of_singleton. lia.
  - rewrite !elem_of_cons. intros [Hx|[Hx|Hx]].
    + assert (x ∈ i :: ids) as H%IH by (subst; by left). lia.
    + lia.
    + assert (x ∈ i :: ids) as H%IH by (by right). lia.
Qed.

Lemma next_id_above rows w : w ∈ rows → (Work.id w < next_id rows)%Z.
Proof.
  intros Hw. unfold next_id.
  assert (Work.id w ∈ Work.id <$> rows) as Hid by (by apply list_elem_of_fmap_2).
  destruct (Work.id <$> rows) as [|i ids]; [by apply elem_of_nil in Hid|].
  apply foldr_max_ge in Hid. lia.
Qed.

Lemma add_commit_inr now work st row st' :
  add_commit now work st = inr (row, st') →
  st' = mkState (works st ++ [row]) (files st) ∧
  Work.id row = next_id (works st) ∧
  Work.approved row = false ∧ Work.pdf_filename row = None ∧
  Work.created_at row = now ∧ Work.updated_at row = now.
Proof.
  unfold add_commit. intros H.
  repeat (apply bind_inr in H as (? & _ & H)).
  injection H as <- <-. by split_and!.
Qed.

(** The store keeps its primary key when a row is added. *)
Lemma add_commit_primary_key now work st row st' :
  primary_key st → add_commit now work st = inr (row, st') → primary_key st'.
Proof.
  unfold primary_key. intros Hpk (-> & Hid & _)%add_commit_inr. simpl.
  rewrite fmap_app. apply NoDup_app. split_and!; [done | | apply NoDup_singleton].
  intros i (w & -> & Hw)%list_elem_of_fmap [=]%list_elem_of_singleton.
  apply next_id_above in Hw. lia.
Qed.

Lemma flush_id now loaded assigned :
  Work.id assigned = Work.id loaded → Work.id (flush now loaded assigned) = Work.id loaded.
Proof. unfold flush. by case_decide. Qed.

Lemma flush_same now row : flush now row row = row.
Proof. unfold flush. by case_decide. Qed.

Lemma get_commit now work_id loaded assigned st :
  Query.get work_id (works st) = Some loaded →
  Work.id assigned = Work.id loaded →
  Query.get work_id (works (commit now loaded assigned st))
  = Some (flush now loaded assigned).
Proof.
  intros Hget Hid. pose proof (get_Some _ _ _ Hget) as [_ Hwid].
  revert Hget. unfold Query.get, commit. simpl.
  induction (works st) as [|row rows IH]; [done|]. simpl.
  destruct (Z.eqb_spec (Work.id row) work_id) as [Heq|Hne].
  - intros [= ->]. rewrite decide_True by done. simpl.
    rewrite flush_id by done. by rewrite Hwid, Z.eqb_refl.
  - intros Hget. rewrite decide_False by congruence. simpl.
    destruct (Z.eqb_spec (Work.id row) work_id); [done | by apply IH].
Qed.

Lemma commit_other now loaded assigned st i row :
  works st !! i = Some row → Work.id row ≠ Work.id loaded →
  works (commit now loaded assigned st) !! i = Some row.
Proof.
  intros Hrow Hne. unfold commit. simpl.
  rewrite list_lookup_fmap, Hrow. simpl. by rewrite decide_False.
Qed.

Lemma commit_length now loaded assigned st :
  length (works (commit now loaded assigned st)) = length (works st).
Proof. unfold commit. simpl. apply length_fmap. Qed.

(** Committing a second time the row the first commit wrote changes
    nothing. *)
Lemma commit_fixed now now' loaded assigned row st :
  Work.id row = Work.id loaded →
  flush now loaded assigned = row →
  commit now' row row (commit now loaded assigned st) = commit now loaded assigned st.
Proof.
  intros Hid Hrow. unfold commit. simpl. f_equal.
  rewrite <- list_fmap_compose. apply list_fmap_ext. intros _ r _. simpl.
  rewrite flush_same.
  destruct (decide (Work.id r = Work.id loaded)) as [Heq|Hne].
  - rewrite Hrow. by rewrite decide_True.
  - rewrite decide_False by congruence. done.
Qed.

(** An update keeps the ids, hence the primary key. *)
Lemma commit_primary_key now loaded assigned st :
  Work.id assigned = Work.id loaded →
  primary_key st → primary_key (commit now loaded assigned st).
Proof.
  intros Hid. unfold primary_key, commit. simpl.
  rewrite <- list_fmap_compose. intros Hpk.
  erewrite list_fmap_ext; [exact Hpk|].
  intros _ row _. simpl. case_decide as Heq; [|done].
  rewrite flush_id by done. by rewrite Heq.
Qed.

(** Section 8: approving a work twice leaves the state of the first
    approval. *)
Lemma WorkApproval_post_idempotent now now' work_id st work :
  Query.get work_id (works st) = Some work →
  WorkApproval_post now' work_id (WorkApproval_post now work_id st).2
  = WorkApproval_post now work_id st.
Proof.
  intros Hget. unfold WorkApproval_post, get_or_404. rewrite Hget. cbn [snd].
  set (assigned := Work.set_approved true work).
  rewrite (get_commit now work_id work assigned st) by done. f_equal.
  assert (Work.set_approved true (flush now work assigned) = flush now work assigned)
    as ->.
  { unfold flush. case_decide as Heq; [by rewrite <- Heq | done]. }
  apply commit_fixed; [|done]. by apply flush_id.
Qed.

(** ** C1: the public listing *)

Lemma if_given_filter param cond query :
  if_given param (λ text, Query.filter (cond text) query) query
  = List.filter (step_cond param cond) query.
Proof.
  unfold step_cond, if_given. destruct param as [text|]; [|by rewrite filter_true].
  destruct (Str.truthy (Some text)); [done | by rewrite filter_true].
Qed.

Lemma step_cond_spec args key cond w :
  step_cond (args !! key) cond w = true
  ↔ ∀ text, supplied args key text → cond text w = Some true.
Proof.
  unfold step_cond, if_given, supplied, Str.truthy.
  destruct (args !! key) as [text|]; [|by split; [intros _ ? [? _]|]].
  destruct (String.eqb_spec text "") as [->|Hne]; simpl.
  - split; [by intros _ ? [[= <-] ?] | done].
  - rewrite bool_decide_eq_true. split.
    + by intros H ? [[= <-] _].
    + intros H. by apply H.
Qed.

Lemma or_true a b c d :
  Query.or_ [a; b; c; d] = Some true
  ↔ a = Some true ∨ b = Some true ∨ c = Some true ∨ d = Some true.
Proof.
  unfold Query.or_. case_bool_decide as Hin.
  - rewrite !elem_of_cons, elem_of_nil in Hin. intuition congruence.
  - rewrite !elem_of_cons, elem_of_nil in Hin.
    case_bool_decide; intuition congruence.
Qed.

Lemma contains_true column text :
  Query.contains column text = Some true ↔ ∃ v, column = Some v ∧ substring text v.
Proof.
  unfold Query.contains. destruct column as [v|]; simpl;
    [|by split; [|intros (? & ? & _)]].
  split.
  - intros [= H%contains_spec]. eauto.
  - intros (? & [= <-] & H%contains_spec). by rewrite H.
Qed.

Lemma eq_true column text : Query.eq column text = Some true ↔ column = Some text.
Proof.
  unfold Query.eq. destruct column as [v|]; simpl; [|by split].
  destruct (String.eqb_spec v text); split; congruence.
Qed.

Lemma eq_int_true column text :
  Query.eq_int column text = Some true ↔ Query.int_of_text text = Some column.
Proof.
  unfold Query.eq_int. case_bool_decide; split; congruence.
Qed.

(** [WorkList.get] answers with the rows that pass [listed], in the order
    of the store. *)
Lemma WorkList_get_listed args st :
  WorkList_get args st
  = (Returned 200 (BList (Work.to_dict <$> List.filter (listed args) (works st))), st).
Proof.
  unfold WorkList_get, Query.filter_by_approved.
  rewrite !if_given_filter, !filter_filter. do 4 f_equal.
  apply filter_ext. intros w. unfold listed. by rewrite !andb_assoc.
Qed.

Lemma listed_spec args w : listed args w = true ↔ visible args w.
Proof.
  unfold listed. rewrite !andb_true_iff, !step_cond_spec. split.
  - intros ((((((Ha & Hs) & Hf) & Hy) & Hsc) & Hr) & Hc). split; [done|..].
    + intros text Ht. specialize (Hs text Ht). apply or_true in Hs.
      rewrite !contains_true in Hs.
      destruct Hs as [Hs|[Hs|[Hs|Hs]]]; destruct Hs as (v & [= <-] & Hs); auto.
    + intros text Ht. specialize (Hf text Ht). apply eq_true in Hf. congruence.
    + intros text Ht. by apply eq_int_true, Hy.
    + intros text Ht. by apply contains_true, Hsc.
    + intros text Ht. by apply eq_true, Hr.
    + intros text Ht. by apply eq_true, Hc.
  - intros [Ha Hs Hf Hy Hsc Hr Hc]. split_and!; [done|..]; intros text Ht.
    + apply or_true. rewrite !contains_true.
      destruct (Hs text Ht) as [?|[?|[?|?]]]; eauto 10.
    + apply eq_true. f_equal. auto.
    + apply eq_int_true. auto.
    + apply contains_true. auto.
    + apply eq_true. auto.
    + apply eq_true. auto.
Qed.

#[global] Instance visible_dec args w : Decision (visible args w).
Proof.
  destruct (listed args w) eqn:E.
  - left. by apply listed_spec.
  - right. intros H%listed_spec. congruence.
Defined.



(** Section 8: of two approved works with the fields Fyzika and Chemie,
    the filter [field=Fyzika] returns exactly the first. *)
Example listing_by_field :
  WorkList_get {[ "field" := "Fyzika" ]} archive_public
  = (Returned 200 (BList [Work.to_dict fotony]), archive_public).
Proof. reflexivity. Qed.

(** Section 8: a search text that occurs in the abstract alone matches. *)
Example search_in_abstract :
  Str.contains (Work.title fotony) "foton" = false ∧
  Str.contains (Work.author_name fotony) "foton" = false ∧
  WorkList_get {[ "search" := "foton" ]} archive_public
  = (Returned 200 (BList [Work.to_dict fotony]), archive_public).
Proof. split_and!; reflexivity. Qed.

(** A work that is not approved is not listed. *)
Example listing_hides_unapproved :
  WorkList_get ∅ archive = (Returned 200 (BList [Work.to_dict fotony]), archive).
Proof. reflexivity. Qed.

(** ** C2: the external representation *)



(** ** C3: creation with a required field missing *)

(** C3, as stated, fails: on the empty body [WorkList.post] raises
    [KeyError] for [title]; no response with status 400 is produced, the
    framework answers the exception with status 500. *)
Lemma C3_missing_title_is_key_error :
  WorkList_post t1 ∅ archive = (Raised (KeyError "title"), archive) ∧
  http_status (WorkList_post t1 ∅ archive).1 = 500.
Proof. split; reflexivity. Qed.

(** C3, amended: for every create request whose body lacks one of title,
    abstract, author_name, year, field, the operation fails: the handler
    raises [KeyError] for a required key that is missing (it returns no
    validation response of its own), and the store is unchanged, so no
    Work record is persisted. *)
Theorem C3_missing_required_field now (data : gmap string pyval) st key :
  key ∈ required → data !! key = None →
  ∃ k, k ∈ required ∧ data !! k = None ∧
       WorkList_post now data st = (Raised (KeyError k), st) ∧
       http_status (WorkList_post now data st).1 = 500.
Proof.
  intros Hkey Hnone. unfold WorkList_post, getitem.
  destruct (data !! "title") as [title|] eqn:Etitle; simpl;
    [|exists "title"; split_and!; [in_list | done..]].
  destruct (data !! "abstract") as [abstract|] eqn:Eabstract; simpl;
    [|exists "abstract"; split_and!; [in_list | done..]].
  destruct (data !! "author_name") as [author|] eqn:Eauthor; simpl;
    [|exists "author_name"; split_and!; [in_list | done..]].
  destruct (data !! "year") as [year|] eqn:Eyear; simpl;
    [|exists "year"; split_and!; [in_list | done..]].
  destruct (data !! "field") as [field|] eqn:Efield; simpl;
    [|exists "field"; split_and!; [in_list | done..]].
  unfold required in Hkey. rewrite !elem_of_cons, elem_of_nil in Hkey.
  destruct Hkey as [->|[->|[->|[->|[->|[]]]]]]; congruence.
Qed.

(** C3 at a body without [year]. *)
Lemma C3_witness :
  ∃ k, k ∈ required ∧ (delete "year" (∅ : gmap string pyval)) !! k = None ∧
       WorkList_post t1 (delete "year" ∅) archive = (Raised (KeyError k), archive) ∧
       http_status (WorkList_post t1 (delete "year" ∅) archive).1 = 500.
Proof.
  apply (C3_missing_required_field t1 (delete "year" ∅) archive "year").
  - in_list.
  - reflexivity.
Defined.

(** ** C4: attaching a PDF *)

(** C4: for every attach-PDF request on an existing work, if the file is
    absent, its name is empty, or its name does not end in [.pdf] (letters
    of either case), the operation answers 400 with a message and the whole
    state (the work's pdf_filename, its other fields, the other rows, the
    file store) is unchanged; a request that passes the three checks answers
    200, stores the file under the upload folder and records its name on
    the work. *)
Theorem C4_upload_checks secure_filename now work_id request_files st work :
  Query.get work_id (works st) = Some work →
  let result := WorkPDFUpload_post secure_filename now work_id request_files st in
  (¬ accepted request_files →
     (∃ text, result.1 = Returned 400 (message text)) ∧ result.2 = st) ∧
  (∀ file, request_files !! "pdf" = Some file → filename file ≠ "" →
     has_pdf_extension (filename file) →
     let name := secure_filename ("work_" +:+ pretty work_id +:+ "_" +:+ filename file) in
     result.1 = Returned 200 (message "PDF uploaded successfully") ∧
     files result.2 = <[Str.path_join UPLOAD_FOLDER name := stream file]> (files st) ∧
     ∃ after, Query.get work_id (works result.2) = Some after ∧
              Work.pdf_filename after = Some name).
Proof.
  intros Hget result. subst result.
  unfold WorkPDFUpload_post, get_or_404. rewrite Hget.
  destruct (request_files !! "pdf") as [file|] eqn:Hfile.
  2: { split; [intros _; eauto | done]. }
  destruct (String.eqb_spec (filename file) "") as [Hempty|Hname].
  { split; [intros _; eauto | by intros ? [= <-]]. }
  assert (Str.truthy (Some (filename file)) = true) as ->.
  { simpl. by destruct (String.eqb_spec (filename file) ""). }
  destruct (allowed_file (filename file)) eqn:Hallowed; simpl.
  - apply allowed_file_spec in Hallowed. split.
    + intros []. by exists file.
    + intros ? [= <-] _ _. split_and!; [done..|].
      eexists. split.
      * by apply get_commit.
      * unfold flush. case_decide as Heq; [by rewrite <- Heq | done].
  - split; [intros _; eauto|].
    intros ? [= <-] _ Hext%allowed_file_spec. congruence.
Qed.

(** C4 at the upload of [prace.txt] for work 1. *)
Lemma C4_witness :
  let result := WorkPDFUpload_post (λ name, name) t1 1 upload_txt archive in
  (¬ accepted upload_txt →
     (∃ text, result.1 = Returned 400 (message text)) ∧ result.2 = archive) ∧
  (∀ file, upload_txt !! "pdf" = Some file → filename file ≠ "" →
     has_pdf_extension (filename file) →
     let name := "work_" +:+ pretty 1 +:+ "_" +:+ filename file in
     result.1 = Returned 200 (message "PDF uploaded successfully") ∧
     files result.2 = <[Str.path_join UPLOAD_FOLDER name := stream file]> (files archive) ∧
     ∃ after, Query.get 1 (works result.2) = Some after ∧
              Work.pdf_filename after = Some name).
Proof.
  apply (C4_upload_checks (λ name, name) t1 1 upload_txt archive fotony).
  reflexivity.
Defined.

(** Section 8: a PDF attached and then retrieved comes back byte for
    byte.  [secure_filename] leaves the name [work_1_prace.PDF] as it is. *)
Example upload_then_download :
  let uploaded := (WorkPDFUpload_post (λ name, name) t1 1 upload_pdf archive).2 in
  (WorkPDF_get 1 uploaded).1
  = Returned 200 (BFile "work_1_prace.PDF" [Byte.x25; Byte.x50; Byte.x44; Byte.x46]).
Proof. reflexivity. Qed.

(** ** C5: anonymization *)

Lemma assigned_anonymous work :
  Work.set_author_email None (Work.set_author_name ANONYMIZED work) = work
  ↔ anonymous work.
Proof.
  unfold anonymous. destruct work. simpl. split.
  - intros [= H1 H2]. by split.
  - intros [H1 H2]. by subst.
Qed.

(** C5, as stated, fails: anonymizing [fotony] at the time [t1] changes
    another column than the author's name and e-mail address: [updated_at]
    goes from [t0] to [t1], by [onupdate] of [models.py]. *)
Lemma C5_updated_at_changes :
  ∃ after,
    Query.get 1 (works (WorkGDPR_delete t1 1 archive).2) = Some after ∧
    Work.updated_at fotony = t0 ∧ Work.updated_at after = t1 ∧ t0 ≠ t1.
Proof. eexists. split_and!; [reflexivity | reflexivity | reflexivity | discriminate]. Qed.

(** C5, amended: for every existing work, anonymization answers 200, sets
    author_name to the marker and author_email to null, and leaves every
    other column of the work unchanged except updated_at, which becomes the
    time of the call when the call changed one of the two columns and is
    kept when the work was anonymous already; the rows with another id, the
    number of rows and the file store are unchanged; and a second call, at
    any time, gives the same response and leaves the state the first call
    produced. *)
Theorem C5_anonymize now now' work_id st work :
  Query.get work_id (works st) = Some work →
  let result := WorkGDPR_delete now work_id st in
  result.1 = Returned 200 (message "Personal data removed") ∧
  (∃ after,
     Query.get work_id (works result.2) = Some after ∧
     Work.author_name after = ANONYMIZED ∧ Work.author_email after = None ∧
     same_but_author work after ∧
     Work.updated_at after
     = if decide (anonymous work) then Work.updated_at work else now) ∧
  (∀ i row, works st !! i = Some row → Work.id row ≠ work_id →
            works result.2 !! i = Some row) ∧
  length (works result.2) = length (works st) ∧
  files result.2 = files st ∧
  WorkGDPR_delete now' work_id result.2 = result.
Proof.
  intros Hget result. pose proof (get_Some _ _ _ Hget) as [_ Hid].
  set (assigned := Work.set_author_email None (Work.set_author_name ANONYMIZED work)).
  assert (result = (Returned 200 (message "Personal data removed"),
                    commit now work assigned st)) as ->.
  { unfold result, WorkGDPR_delete, get_or_404. by rewrite Hget. }
  assert (Query.get work_id (works (commit now work assigned st))
          = Some (flush now work assigned)) as Hafter by (by apply get_commit).
  cbn [fst snd].
  split_and!; [done | | | | done |].
  - exists (flush now work assigned). split; [done|].
    unfold flush. rewrite (decide_ext _ _ _ _ (assigned_anonymous work)).
    destruct (decide (anonymous work)) as [[Hname Hemail]|_].
    + by split_and!.
    + by split_and!.
  - intros i row Hrow Hne. apply commit_other; [done | congruence].
  - apply commit_length.
  - unfold WorkGDPR_delete, get_or_404. rewrite Hafter. f_equal.
    assert (anonymous (flush now work assigned)) as ->%assigned_anonymous.
    { unfold flush. case_decide; [by apply assigned_anonymous | by destruct work]. }
    apply commit_fixed; [|done]. by apply flush_id.
Qed.

(** C5 at work 1 of [archive]. *)
Lemma C5_witness :
  let result := WorkGDPR_delete t1 1 archive in
  result.1 = Returned 200 (message "Personal data removed") ∧
  (∃ after,
     Query.get 1 (works result.2) = Some after ∧
     Work.author_name after = ANONYMIZED ∧ Work.author_email after = None ∧
     same_but_author fotony after ∧
     Work.updated_at after
     = if decide (anonymous fotony) then Work.updated_at fotony else t1) ∧
  (∀ i row, works archive !! i = Some row → Work.id row ≠ 1 →
            works result.2 !! i = Some row) ∧
  length (works result.2) = length (works archive) ∧
  files result.2 = files archive ∧
  WorkGDPR_delete t0 1 result.2 = result.
Proof. apply (C5_anonymize t1 t0 1 archive fotony). reflexivity. Defined.

(** ** C6: retrieving a PDF *)

(** What [WorkPDF.get] does in each case: 404 by [get_or_404] for an id
    that is absent, the 404 response for a work without attachment, the
    file for an attachment that is in the file store, and
    [FileNotFoundError] for one that is not. *)
Lemma WorkPDF_get_spec work_id st :
  match Query.get work_id (works st) with
  | None => WorkPDF_get work_id st = (Raised NotFound, st)
  | Some work =>
      match Work.pdf_filename work with
      | None => WorkPDF_get work_id st = (Returned 404 (message "PDF not available"), st)
      | Some name =>
          name ≠ "" →
          match files st !! Str.path_join UPLOAD_FOLDER name with
          | Some content =>
              ∃ download_name,
                WorkPDF_get work_id st = (Returned 200 (BFile download_name content), st)
          | None =>
              WorkPDF_get work_id st
              = (Raised (FileNotFoundError (Str.path_join UPLOAD_FOLDER name)), st)
          end
      end
  end.
Proof.
  unfold WorkPDF_get, get_or_404.
  destruct (Query.get work_id (works st)) as [work|]; [|done].
  destruct (Work.pdf_filename work) as [name|]; [|done]. simpl.
  intros Hname. destruct (String.eqb_spec name ""); [done|]. simpl.
  unfold send_file. destruct (files st !! _); eauto.
Qed.

(** C6 at a work whose attachment is missing from the file store:
    [kyseliny] names the file [work_2_prace.pdf], the file store of
    [archive] does not hold it, and [WorkPDF.get] raises
    [FileNotFoundError], which is answered with status 500 and not with the
    404 the claim and the handler's own [response(404, 'Work or PDF not
    found')] announce. *)
Theorem C6_missing_file_is_not_404 :
  Work.pdf_filename kyseliny = Some "work_2_prace.pdf" ∧
  files archive !! "static/pdfs/work_2_prace.pdf" = None ∧
  WorkPDF_get 2 archive
  = (Raised (FileNotFoundError "static/pdfs/work_2_prace.pdf"), archive) ∧
  http_status (WorkPDF_get 2 archive).1 = 500.
Proof. split_and!; reflexivity. Qed.

(** ** C7: the year parameter *)





(** ** C8: statistics *)

Lemma works_with_pos `{EqDecision K} (key : Work.t → K) k rows :
  (0 < works_with key k rows)%nat ↔ k ∈ key <$> rows.
Proof.
  unfold works_with. rewrite list_elem_of_fmap. split.
  - destruct (filter _ rows) as [|w l] eqn:E; simpl; [lia|]. intros _.
    assert (w ∈ filter (λ w, key w = k) rows) as [? ?]%list_elem_of_filter
      by (rewrite E; left).
    by exists w.
  - intros (w & -> & Hw).
    assert (w ∈ filter (λ w', key w' = key w) rows) as Hin
      by (by apply list_elem_of_filter).
    destruct (filter _ rows); [by apply elem_of_nil in Hin | simpl; lia].
Qed.

(** The dictionary built from a grouped count maps a key to [n] iff [n] is
    positive and is the number of works with that key. *)
Lemma group_by_count_lookup `{Countable K} (key : Work.t → K) rows k n :
  py_dict (Query.group_by_count key rows) !! k = Some n
  ↔ (0 < n)%nat ∧ n = works_with key k rows.
Proof.
  unfold Query.group_by_count. rewrite py_dict_lookup.
  - rewrite list_elem_of_fmap. setoid_rewrite elem_of_remove_dups.
    setoid_rewrite filter_length_decide. split.
    + intros (k' & [= -> ->] & Hin). split; [by apply works_with_pos | done].
    + intros [Hpos ->]. exists k. split; [done | by apply works_with_pos].
  - pose proof (NoDup_remove_dups (key <$> rows)) as Hnodup.
    induction Hnodup as [|x l Hx Hl IH]; csimpl; [constructor|].
    apply NoDup_cons. split; [|done].
    rewrite <- list_fmap_compose. intros (x' & -> & Hin)%list_elem_of_fmap. done.
Qed.

(** C8: for every store, the statistics operation answers 200 and leaves
    the state unchanged; over all works, approved or not, it gives the
    number of works, the number of works with approved = true, a map that
    takes each year some work has to the number of works of that year (and
    has no other key), and the same map for the fields; for works with the
    years 2023, 2023, 2024 the map of the years is {2023: 2, 2024: 1}. *)
Theorem C8_statistics st :
  ∃ s,
    Statistics_get st = (Returned 200 (BStats s), st) ∧
    total_works s = length (works st) ∧
    approved_works s = length (filter (λ w, Work.approved w = true) (works st)) ∧
    (∀ year n, works_by_year s !! year = Some n
               ↔ (0 < n)%nat ∧ n = works_with Work.year year (works st)) ∧
    (∀ field n, works_by_field s !! field = Some n
                ↔ (0 < n)%nat ∧ n = works_with Work.field field (works st)) ∧
    (Work.year <$> works st = [2023; 2023; 2024] →
     works_by_year s = {[ 2023 := 2%nat; 2024 := 1%nat ]}).
Proof.
  eexists. split; [reflexivity|].
  cbn [total_works approved_works works_by_year works_by_field].
  split_and!.
  - done.
  - unfold Query.count, Query.filter_by_approved.
    by rewrite (filter_decide _ (λ w, Work.approved w = true)).
  - intros. apply group_by_count_lookup.
  - intros. apply group_by_count_lookup.
  - intros Hyears. destruct (works st) as [|a [|b [|c [|d rows]]]]; try discriminate.
    injection Hyears as Ha Hb Hc. apply map_eq. intros y. apply option_eq. intros n.
    rewrite group_by_count_lookup. unfold works_with.
    rewrite !filter_cons, filter_nil, Ha, Hb, Hc.
    rewrite lookup_insert, lookup_singleton.
    repeat case_decide; simpl; split; try (intros [? ?]); try (intros [= <-]);
      try split; try done; try lia; congruence.
Qed.

(** ** C9: get by id *)

(** C9: for every work in a store that respects the primary key, get by
    id answers 200 with the representation of that work, whatever its
    approved flag, and leaves the state unchanged. *)
Theorem C9_detail_ignores_approval st work :
  primary_key st → work ∈ works st →
  WorkDetail_get (Work.id work) st = (Returned 200 (BDict (Work.to_dict work)), st).
Proof.
  intros Hpk Hin. unfold WorkDetail_get, get_or_404.
  by rewrite (get_primary_key _ _ Hpk Hin).
Qed.

(** C9 at work 2 of [archive], which is not approved. *)
Lemma C9_witness :
  Work.approved kyseliny = false ∧
  WorkDetail_get 2 archive = (Returned 200 (BDict (Work.to_dict kyseliny)), archive).
Proof.
  split; [reflexivity|].
  apply (C9_detail_ignores_approval archive kyseliny).
  - unfold primary_key. simpl.
    repeat constructor; rewrite ?elem_of_cons, ?elem_of_nil; intuition discriminate.
  - in_list.
Defined.

(** ** C10: keys the create handler does not read *)

Lemma WorkList_post_returned now data st status b st' :
  WorkList_post now data st = (Returned status b, st') →
  ∃ work, st' = mkState (works st ++ [work]) (files st) ∧
          Work.id work = next_id (works st) ∧
          Work.approved work = false ∧ Work.pdf_filename work = None ∧
          status = 201 ∧ b = BDict (Work.to_dict work).
Proof.
  unfold WorkList_post.
  match goal with |- context [?m ≫= ?f] => destruct (m ≫= f) as [e|[work st1]] eqn:E end;
    [done|].
  intros [= <- <- <-].
  apply bind_inr in E as (transient & _ & E).
  apply add_commit_inr in E as (-> & ? & ? & ? & _). by exists work.
Qed.

(** C10: two create requests whose bodies agree on the ten keys the
    handler reads (so differ only in other keys, such as approved or
    pdf_filename) have the same outcome and leave the same state; and
    whenever a create request succeeds, the row it appends to the store has
    approved = false and pdf_filename = null, and the response is 201 with
    the representation of that row. *)
Theorem C10_extra_keys_ignored now st (data1 data2 : gmap string pyval) :
  (∀ k, k ∈ read_keys → data1 !! k = data2 !! k) →
  WorkList_post now data1 st = WorkList_post now data2 st ∧
  ∀ status b st', WorkList_post now data1 st = (Returned status b, st') →
    ∃ work, works st' = works st ++ [work] ∧ files st' = files st ∧
            Work.approved work = false ∧ Work.pdf_filename work = None ∧
            status = 201 ∧ b = BDict (Work.to_dict work).
Proof.
  intros Hagree. split.
  - unfold WorkList_post, getitem, get.
    rewrite !(Hagree "title"), !(Hagree "abstract"), !(Hagree "author_name"),
      !(Hagree "author_email"), !(Hagree "year"), !(Hagree "field"),
      !(Hagree "school"), !(Hagree "region"), !(Hagree "category"),
      !(Hagree "gdpr_consent") by in_list.
    reflexivity.
  - intros status b st' (work & -> & _ & ? & ? & ? & ?)%WorkList_post_returned.
    by exists work.
Qed.

(** C10 at a body that carries [approved] and [pdf_filename] and the same
    body without them. *)
Lemma C10_witness :
  WorkList_post t1 prace_self_approved archive = WorkList_post t1 prace archive ∧
  ∀ status b st', WorkList_post t1 prace_self_approved archive = (Returned status b, st') →
    ∃ work, works st' = works archive ++ [work] ∧ files st' = files archive ∧
            Work.approved work = false ∧ Work.pdf_filename work = None ∧
            status = 201 ∧ b = BDict (Work.to_dict work).
Proof.
  apply (C10_extra_keys_ignored t1 archive prace_self_approved prace).
  intros k Hk. unfold read_keys in Hk. rewrite !elem_of_cons, elem_of_nil in Hk.
  destruct Hk as [->|[->|[->|[->|[->|[->|[->|[->|[->|[->|[]]]]]]]]]]]; reflexivity.
Defined.

(** * Further properties of the handlers *)

(** ** [allowed_file] *)

Lemma free_of_not_contains sep s :
  free_of sep s → Str.contains s (String sep "") = false.
Proof.
  induction s as [|c s IH]; [done|]. intros [Hc Hs]. simpl.
  rewrite (IH Hs). destruct (Ascii.eqb_spec sep c); [congruence|done].
Qed.

(** [allowed_file] never indexes out of range: when the name holds a dot,
    [rsplit('.', 1)] has two parts, the name is the first part, the dot
    and the second part, the second part holds no dot, and the answer is
    whether the second part in lower case is [pdf].  A name without a dot
    is refused. *)
Theorem allowed_file_last_extension filename :
  (Str.contains filename "." = true →
   ∃ stem ext, Str.rsplit1 "." filename = [stem; ext] ∧
               filename = stem +:+ "." +:+ ext ∧ free_of "." ext ∧
               allowed_file filename = bool_decide (Str.lower ext = "pdf")) ∧
  (Str.contains filename "." = false → allowed_file filename = false).
Proof.
  split; [|by unfold allowed_file; intros ->].
  intros Hdot.
  destruct (rsplit1_shape "." filename) as [[Hfree _] | (l & r & Heq & Hfree & Hsplit)].
  - apply free_of_not_contains in Hfree. congruence.
  - exists l, r. split_and!; [done..|].
    unfold allowed_file. rewrite Hdot, Hsplit. simpl.
    apply bool_decide_ext. apply list_elem_of_singleton.
Qed.

(** ** An id that no work has *)




(** ** Approval *)

Lemma assigned_approved work :
  Work.set_approved true work = work ↔ Work.approved work = true.
Proof.
  destruct work. simpl. split; [by intros [= ->] | by intros ->].
Qed.

(** For every existing work, approval answers 200, sets [approved] and
    leaves the other columns of the work as they are, except [updated_at],
    which becomes the time of the call when the work was not approved
    before; the rows with another id, their number and the file store are
    unchanged, and a second approval, at any time, changes nothing. *)
Theorem approval_effect now now' work_id st work :
  Query.get work_id (works st) = Some work →
  let result := WorkApproval_post now work_id st in
  result.1 = Returned 200 (message "Work approved") ∧
  (∃ after,
     Query.get work_id (works result.2) = Some after ∧
     Work.approved after = true ∧
     same_but_approved work after ∧
     Work.updated_at after
     = if Work.approved work then Work.updated_at work else now) ∧
  (∀ i row, works st !! i = Some row → Work.id row ≠ work_id →
            works result.2 !! i = Some row) ∧
  length (works result.2) = length (works st) ∧
  files result.2 = files st ∧
  WorkApproval_post now' work_id result.2 = result.
Proof.
  intros Hget result. pose proof (get_Some _ _ _ Hget) as [_ Hid].
  split_and!.
  - unfold result, WorkApproval_post, get_or_404. by rewrite Hget.
  - exists (flush now work (Work.set_approved true work)). split.
    + unfold result, WorkApproval_post, get_or_404. rewrite Hget. cbn [snd].
      by apply get_commit.
    + unfold flush. rewrite (decide_ext _ _ _ _ (assigned_approved work)).
      destruct (Work.approved work) eqn:Happroved.
      * rewrite decide_True by done. by split_and!.
      * rewrite decide_False by done. by split_and!.
  - intros i row Hrow Hne.
    unfold result, WorkApproval_post, get_or_404. rewrite Hget. cbn [snd].
    apply commit_other; [done | congruence].
  - unfold result, WorkApproval_post, get_or_404. rewrite Hget. cbn [snd].
    apply commit_length.
  - unfold result, WorkApproval_post, get_or_404. by rewrite Hget.
  - by apply WorkApproval_post_idempotent with work.
Qed.

(** Approval of work 2 of [archive]. *)
Lemma approval_effect_witness :
  let result := WorkApproval_post t1 2 archive in
  result.1 = Returned 200 (message "Work approved") ∧
  (∃ after,
     Query.get 2 (works result.2) = Some after ∧
     Work.approved after = true ∧
     same_but_approved kyseliny after ∧
     Work.updated_at after
     = if Work.approved kyseliny then Work.updated_at kyseliny else t1) ∧
  (∀ i row, works archive !! i = Some row → Work.id row ≠ 2 →
            works result.2 !! i = Some row) ∧
  length (works result.2) = length (works archive) ∧
  files result.2 = files archive ∧
  WorkApproval_post t0 2 result.2 = result.
Proof. apply (approval_effect t1 t0 2 archive kyseliny). reflexivity. Defined.

(** ** Creation *)

Lemma get_app_new work_id rows row :
  (∀ w, w ∈ rows → Work.id w ≠ work_id) → Work.id row = work_id →
  Query.get work_id (rows ++ [row]) = Some row.
Proof.
  intros Hno Hid. unfold Query.get. induction rows as [|r rows IH]; simpl.
  - by rewrite Hid, Z.eqb_refl.
  - destruct (Z.eqb_spec (Work.id r) work_id) as [Heq|_].
    + destruct (Hno r); [left | done].
    + apply IH. intros w Hw. apply Hno. by right.
Qed.

Lemma next_id_fresh rows w : w ∈ rows → Work.id w ≠ next_id rows.
Proof. intros Hw%next_id_above. lia. Qed.

(** A work that was created can be fetched: after a successful create
    request, get by id on the new id (the id in the response) answers 200
    with the very representation the create request returned. *)
Theorem create_then_get now data st status b st' :
  WorkList_post now data st = (Returned status b, st') →
  WorkDetail_get (next_id (works st)) st' = (Returned 200 b, st') ∧
  ∃ work, b = BDict (Work.to_dict work) ∧ Work.id work = next_id (works st).
Proof.
  intros (work & -> & Hid & _ & _ & _ & ->)%WorkList_post_returned.
  split; [|by exists work].
  unfold WorkDetail_get, get_or_404. cbn [works].
  rewrite (get_app_new _ _ work); [done | | done].
  intros w Hw. by apply next_id_fresh.
Qed.

(** The round trip at the body [prace]. *)
Lemma create_then_get_witness :
  WorkDetail_get (next_id (works archive)) (mkState (works archive ++ [prvocisla]) ∅)
  = (Returned 200 (BDict (Work.to_dict prvocisla)),
     mkState (works archive ++ [prvocisla]) ∅) ∧
  ∃ work, BDict (Work.to_dict prvocisla) = BDict (Work.to_dict work) ∧
          Work.id work = next_id (works archive).
Proof.
  apply (create_then_get t1 prace archive 201 (BDict (Work.to_dict prvocisla))
           (mkState (works archive ++ [prvocisla]) ∅)).
  reflexivity.
Defined.




Lemma bind_inl {A B} (m : exn + A) (f : A → exn + B) e :
  m ≫= f = inl e ↔ m = inl e ∨ ∃ x, m = inr x ∧ f x = inl e.
Proof.
  destruct m as [e'|x]; unfold mbind, exn_bind.
  - split; [intros [= ->]; by left | by intros [[= ->]|(? & ? & _)]].
  - split; [eauto | by intros [?|(? & [= <-] & ?)]].
Qed.

(** The store refuses a row with [StoreError] and with nothing else. *)
Lemma add_commit_inl now work st e : add_commit now work st = inl e → e = StoreError.
Proof.
  unfold add_commit. intros H.
  repeat (apply bind_inl in H as [H|(? & _ & H)];
          [match type of H with
           | boolean_column ?v = _ =>
               destruct v as [| | [|[]|] | |]; simpl in H; congruence
           | _ ?v = _ => destruct v; simpl in H; congruence
           end|]).
  done.
Qed.

(** [WorkList.post] raises [KeyError] exactly when a required key is
    missing, and then for the first one missing in the order title,
    abstract, author_name, year, field; the five optional keys never
    raise it. *)
Theorem create_key_error_is_first_missing now data st key :
  (WorkList_post now data st).1 = Raised (KeyError key)
  ↔ first_missing data required = Some key.
Proof.
  unfold WorkList_post, getitem, required, first_missing.
  destruct (data !! "title") as [title|]; simpl; [|split; congruence].
  destruct (data !! "abstract") as [abstract|]; simpl; [|split; congruence].
  destruct (data !! "author_name") as [author|]; simpl; [|split; congruence].
  destruct (data !! "year") as [year|]; simpl; [|split; congruence].
  destruct (data !! "field") as [field|]; simpl; [|split; congruence].
  split; [|done].
  match goal with |- context [add_commit ?n ?w ?s] =>
    destruct (add_commit n w s) as [e|[row st']] eqn:E end; [|done].
  simpl. intros [= ->]. by apply add_commit_inl in E.
Qed.

Lemma WorkList_post_unfold now data st :
  WorkList_post now data st
  = match work_of_body data with
    | inl e => (Raised e, st)
    | inr work =>
        match add_commit now work st with
        | inl e => (Raised e, st)
        | inr (row, st') => (Returned 201 (BDict (Work.to_dict row)), st')
        end
    end.
Proof.
  unfold WorkList_post, work_of_body, getitem.
  repeat match goal with
         | |- context [data !! ?k] =>
             lazymatch k with
             | "title" => idtac | "abstract" => idtac | "author_name" => idtac
             | "year" => idtac | "field" => idtac
             end;
             destruct (data !! k); simpl; [|reflexivity]
         end.
  by destruct (add_commit _ _ _) as [?|[? ?]].
Qed.

Lemma work_of_body_inl data e : work_of_body data = inl e → ∃ key, e = KeyError key.
Proof.
  unfold work_of_body, getitem.
  repeat match goal with
         | |- context [match data !! ?k with _ => _ end] =>
             destruct (data !! k); simpl; [|intros [= <-]; eauto]
         end.
  done.
Qed.

Lemma WorkList_post_state now data st :
  (∃ row, WorkList_post now data st
          = (Returned 201 (BDict (Work.to_dict row)),
             mkState (works st ++ [row]) (files st))) ∨
  (WorkList_post now data st).2 = st.
Proof.
  rewrite WorkList_post_unfold.
  destruct (work_of_body data) as [e|work]; [by right|].
  destruct (add_commit now work st) as [e|[row st']] eqn:Ecommit; [by right|].
  left. apply add_commit_inr in Ecommit as (-> & _). by exists row.
Qed.

(** A create request does all or nothing: either it answers 201 and the
    store grows by exactly one row, or it raises [KeyError] or
    [StoreError] (both answered with status 500) and the state is
    unchanged.  The file store is unchanged in both cases. *)
Theorem create_all_or_nothing now data st :
  let result := WorkList_post now data st in
  (∃ row, result = (Returned 201 (BDict (Work.to_dict row)),
                    mkState (works st ++ [row]) (files st))) ∨
  ((∃ key, result.1 = Raised (KeyError key)) ∨ result.1 = Raised StoreError) ∧
  http_status result.1 = 500 ∧ result.2 = st.
Proof.
  intros result. subst result. rewrite WorkList_post_unfold.
  destruct (work_of_body data) as [e|work] eqn:Ebody.
  - right. apply work_of_body_inl in Ebody as [key ->]. cbn [fst snd].
    split_and!; [left; eauto | done..].
  - destruct (add_commit now work st) as [e|[row st']] eqn:Ecommit.
    + right. apply add_commit_inl in Ecommit as ->. cbn [fst snd].
      split_and!; [by right | done..].
    + left. apply add_commit_inr in Ecommit as (-> & _). by exists row.
Qed.

Lemma add_commit_required now work st row st' :
  add_commit now work st = inr (row, st') →
  Work.title_ work ≠ PNone ∧ Work.abstract_ work ≠ PNone ∧
  Work.author_name_ work ≠ PNone ∧ Work.year_ work ≠ PNone ∧
  Work.field_ work ≠ PNone.
Proof.
  unfold add_commit. intros H.
  apply bind_inr in H as (? & Htitle & H).
  apply bind_inr in H as (? & Habstract & H).
  apply bind_inr in H as (? & Hauthor & H).
  apply bind_inr in H as (? & _ & H).
  apply bind_inr in H as (? & Hyear & H).
  apply bind_inr in H as (? & Hfield & _).
  split_and!; intros Hnull;
    [rewrite Hnull in Htitle | rewrite Hnull in Habstract | rewrite Hnull in Hauthor
     | rewrite Hnull in Hyear | rewrite Hnull in Hfield]; discriminate.
Qed.

(** The columns declared [nullable=False] refuse null: a create request
    whose body holds the five required keys, one of them with the value
    null, raises [StoreError] and persists nothing. *)
Theorem create_null_is_refused now data st key :
  first_missing data required = None →
  key ∈ required → data !! key = Some PNone →
  WorkList_post now data st = (Raised StoreError, st).
Proof.
  intros Hpresent Hkey Hnull. rewrite WorkList_post_unfold.
  revert Hpresent. unfold work_of_body, getitem, required, first_missing.
  destruct (data !! "title") as [title|] eqn:Etitle; [|done].
  destruct (data !! "abstract") as [abstract|] eqn:Eabstract; [|done].
  destruct (data !! "author_name") as [author|] eqn:Eauthor; [|done].
  destruct (data !! "year") as [year|] eqn:Eyear; [|done].
  destruct (data !! "field") as [field|] eqn:Efield; [|done].
  intros _. simpl.
  match goal with |- context [add_commit ?n ?w ?s] =>
    destruct (add_commit n w s) as [e|[row' st']] eqn:E end.
  - by apply add_commit_inl in E as ->.
  - apply add_commit_required in E as (? & ? & ? & ? & ?). cbn in *.
    unfold required in Hkey. rewrite !elem_of_cons, elem_of_nil in Hkey.
    destruct Hkey as [->|[->|[->|[->|[->|[]]]]]]; congruence.
Qed.

(** The body [prace] with the title null. *)
Lemma create_null_is_refused_witness :
  WorkList_post t1 (<["title" := PNone]> prace) archive = (Raised StoreError, archive).
Proof.
  apply (create_null_is_refused t1 (<["title" := PNone]> prace) archive "title").
  - reflexivity.
  - in_list.
  - reflexivity.
Defined.

(** ** Creation, approval and the public listing *)

Lemma listed_approved args w : listed args w = true → Work.approved w = true.
Proof. unfold listed. rewrite !andb_true_iff. tauto. Qed.

Lemma listed_no_parameters w : listed ∅ w = Work.approved w.
Proof.
  unfold listed. rewrite !lookup_empty. unfold step_cond, if_given.
  by rewrite !andb_true_r.
Qed.

(** A work that was just created is not public: whatever the
    parameters, the listing answers after a successful create request what
    it answered before. *)
Theorem created_work_is_not_listed now data st status b st' args :
  WorkList_post now data st = (Returned status b, st') →
  (WorkList_get args st').1 = (WorkList_get args st).1.
Proof.
  intros (work & -> & _ & Happroved & _)%WorkList_post_returned.
  rewrite !WorkList_get_listed. cbn [fst works].
  rewrite List.filter_app. simpl.
  destruct (listed args work) eqn:E.
  - apply listed_approved in E. congruence.
  - by rewrite app_nil_r.
Qed.

(** The listing of [archive] before and after the creation of [prvocisla]. *)
Lemma created_work_is_not_listed_witness :
  (WorkList_get ∅ (mkState (works archive ++ [prvocisla]) ∅)).1
  = (WorkList_get ∅ archive).1.
Proof.
  apply (created_work_is_not_listed t1 prace archive 201
           (BDict (Work.to_dict prvocisla))
           (mkState (works archive ++ [prvocisla]) ∅) ∅).
  reflexivity.
Defined.

(** Approval publishes: after the approval of an existing work, the
    listing without parameters holds the representation of that work, with
    [approved] true. *)
Theorem approved_work_is_listed now work_id st work :
  Query.get work_id (works st) = Some work →
  let st' := (WorkApproval_post now work_id st).2 in
  ∃ after rows,
    Query.get work_id (works st') = Some after ∧
    Work.to_dict after = Work.to_dict (Work.set_approved true work) ∧
    WorkList_get ∅ st' = (Returned 200 (BList rows), st') ∧
    Work.to_dict after ∈ rows.
Proof.
  intros Hget st'. subst st'.
  unfold WorkApproval_post, get_or_404. rewrite Hget. cbn [snd].
  set (assigned := Work.set_approved true work).
  pose proof (get_Some _ _ _ Hget) as [_ Hid].
  assert (Query.get work_id (works (commit now work assigned st))
          = Some (flush now work assigned)) as Hafter by (by apply get_commit).
  exists (flush now work assigned). eexists. split_and!.
  - done.
  - unfold flush. case_decide as Heq; [by rewrite <- Heq | done].
  - apply WorkList_get_listed.
  - apply list_elem_of_fmap_2, list_elem_of_In, filter_In. split.
    + apply list_elem_of_In. by apply get_Some in Hafter as [? _].
    + rewrite listed_no_parameters. unfold flush.
      case_decide as Heq; [by rewrite <- Heq | done].
Qed.

(** Approval of work 2 of [archive], then the listing. *)
Lemma approved_work_is_listed_witness :
  let st' := (WorkApproval_post t1 2 archive).2 in
  ∃ after rows,
    Query.get 2 (works st') = Some after ∧
    Work.to_dict after = Work.to_dict (Work.set_approved true kyseliny) ∧
    WorkList_get ∅ st' = (Returned 200 (BList rows), st') ∧
    Work.to_dict after ∈ rows.
Proof. apply (approved_work_is_listed t1 2 archive kyseliny). reflexivity. Defined.

(** ** What a request can do to the state *)

Lemma get_id work_id rows work :
  Query.get work_id rows = Some work → Query.get (Work.id work) rows = Some work.
Proof. intros H. by destruct (get_Some _ _ _ H) as [_ ->]. Qed.

Lemma handle_effect secure_filename r st : effect st (handle secure_filename r st).2.
Proof.
  destruct r as [args|now data|work_id|work_id|now work_id|now work_id
                 |now work_id request_files| |]; cbn [handle].
  - rewrite WorkList_get_listed. constructor.
  - destruct (WorkList_post_state now data st) as [[row Hrow]| ->];
      [|constructor].
    destruct (WorkList_post_returned _ _ _ _ _ _ Hrow) as (work & Hst & ? & ? & ? & _).
    rewrite Hrow. cbn [snd]. injection Hst as Hworks.
    apply app_inj_tail in Hworks as [_ <-]. by constructor.
  - unfold WorkDetail_get. destruct (get_or_404 _ _); constructor.
  - unfold WorkPDF_get. destruct (get_or_404 _ _); [constructor|].
    destruct (negb _); constructor.
  - unfold WorkGDPR_delete, get_or_404.
    destruct (Query.get work_id (works st)) as [work|] eqn:E; [|constructor].
    cbn [snd]. apply effect_anonymize. by apply get_id with work_id.
  - unfold WorkApproval_post, get_or_404.
    destruct (Query.get work_id (works st)) as [work|] eqn:E; [|constructor].
    cbn [snd]. apply effect_approve. by apply get_id with work_id.
  - unfold WorkPDFUpload_post, get_or_404.
    destruct (Query.get work_id (works st)) as [work|] eqn:E; [|constructor].
    destruct (request_files !! "pdf") as [file|]; [|constructor].
    destruct (String.eqb _ _); [constructor|].
    destruct (_ && _); [|constructor].
    cbn [snd]. apply (effect_attach st now work _ (stream file)).
    by apply get_id with work_id.
  - constructor.
  - constructor.
Qed.

(** *** The primary key *)

Lemma effect_primary_key st st' : effect st st' → primary_key st → primary_key st'.
Proof.
  intros [|row Hid _ _|now loaded _|now loaded _|now loaded name content _] Hpk.
  - done.
  - unfold primary_key. simpl. rewrite fmap_app. apply NoDup_app.
    split_and!; [done | | apply NoDup_singleton].
    intros i (w & -> & Hw)%list_elem_of_fmap [=]%list_elem_of_singleton.
    apply next_id_above in Hw. lia.
  - apply commit_primary_key; [by destruct loaded | done].
  - apply commit_primary_key; [by destruct loaded | done].
  - apply commit_primary_key; [by destruct loaded | done].
Qed.

(** The primary key is an invariant: no request, and no sequence of
    requests, makes two works share an id; in particular the ids are
    distinct in every state reached from the empty archive. *)
Theorem primary_key_invariant secure_filename :
  (∀ r st, primary_key st → primary_key (handle secure_filename r st).2) ∧
  (∀ requests st, primary_key st → primary_key (run secure_filename requests st)) ∧
  (∀ requests, primary_key (run secure_filename requests empty_archive)).
Proof.
  assert (∀ r st, primary_key st → primary_key (handle secure_filename r st).2)
    as Hstep.
  { intros r st. apply effect_primary_key, handle_effect. }
  assert (∀ requests st, primary_key st →
            primary_key (run secure_filename requests st)) as Hrun.
  { induction requests as [|r requests IH]; intros st Hpk; [done|].
    simpl. apply IH, Hstep, Hpk. }
  split_and!; [done | done |].
  intros requests. apply Hrun. unfold primary_key. simpl. constructor.
Qed.

(** *** Ids *)








(** *** Columns no request changes, and changes no request undoes *)

Lemma kept_refl w : kept w w.
Proof. by split. Qed.

Lemma kept_trans w1 w2 w3 : kept w1 w2 → kept w2 w3 → kept w1 w3.
Proof.
  intros [] []. split; try congruence; auto.
Qed.

Lemma kept_flush now loaded assigned :
  kept loaded assigned → kept loaded (flush now loaded assigned).
Proof.
  intros H. unfold flush. case_decide; [apply kept_refl|].
  destruct H. by split.
Qed.

Lemma get_unique rows work i row :
  NoDup (Work.id <$> rows) → Query.get (Work.id work) rows = Some work →
  rows !! i = Some row → Work.id row = Work.id work → row = work.
Proof.
  intros Hpk Hget Hrow Hid.
  assert (row ∈ rows) as Hin by (by apply list_elem_of_lookup_2 with i).
  pose proof (get_primary_key _ _ Hpk Hin) as Hget'.
  rewrite Hid in Hget'. congruence.
Qed.

Lemma commit_kept now loaded assigned st i row :
  primary_key st → Query.get (Work.id loaded) (works st) = Some loaded →
  kept loaded assigned → works st !! i = Some row →
  ∃ row', works (commit now loaded assigned st) !! i = Some row' ∧ kept row row'.
Proof.
  intros Hpk Hget Hkept Hrow. unfold commit. simpl.
  rewrite list_lookup_fmap, Hrow. simpl. eexists. split; [done|].
  case_decide as Hid; [|apply kept_refl].
  rewrite (get_unique _ _ _ _ Hpk Hget Hrow Hid). by apply kept_flush.
Qed.

Lemma effect_kept st st' i row :
  effect st st' → primary_key st → works st !! i = Some row →
  ∃ row', works st' !! i = Some row' ∧ kept row row'.
Proof.
  intros [|new _ _ _|now loaded Hget|now loaded Hget|now loaded name content Hget]
    Hpk Hrow.
  - exists row. split; [done | apply kept_refl].
  - exists row. split; [|apply kept_refl]. simpl. by apply lookup_app_l_Some.
  - apply commit_kept; [done..| |done]. destruct loaded. by split.
  - apply commit_kept; [done..| |done]. destruct loaded. by split.
  - apply (commit_kept now loaded _ (mkState (works st) _)); [done..| |done].
    destruct loaded. by split.
Qed.

(** In a store that respects the primary key, no sequence of requests
    removes a row or moves it, changes its id, title, abstract, year,
    field, school, region, category, gdpr_consent or created_at, withdraws
    an approval, restores the personal data of an anonymized work, or
    clears an attachment. *)
Theorem lifecycle_is_one_way secure_filename requests st i row :
  primary_key st → works st !! i = Some row →
  ∃ row', works (run secure_filename requests st) !! i = Some row' ∧ kept row row'.
Proof.
  revert st row. induction requests as [|r requests IH]; intros st row Hpk Hrow.
  - exists row. split; [done | apply kept_refl].
  - simpl.
    destruct (effect_kept _ _ _ _ (handle_effect secure_filename r st) Hpk Hrow)
      as (row1 & Hrow1 & Hkept1).
    destruct (IH _ row1 (effect_primary_key _ _ (handle_effect secure_filename r st) Hpk)
                Hrow1) as (row' & Hrow' & Hkept').
    exists row'. split; [done | by apply kept_trans with row1].
Qed.

(** Work 1 of [archive] through an anonymization and an upload. *)
Lemma lifecycle_is_one_way_witness :
  ∃ row', works (run (λ name, name)
                   [DELETE_work_gdpr t1 1; POST_admin_pdf t1 1 upload_pdf] archive)
            !! 0%nat = Some row' ∧ kept fotony row'.
Proof.
  apply (lifecycle_is_one_way (λ name, name)
           [DELETE_work_gdpr t1 1; POST_admin_pdf t1 1 upload_pdf] archive 0 fotony).
  - unfold primary_key. simpl.
    repeat constructor; rewrite ?elem_of_cons, ?elem_of_nil; intuition discriminate.
  - reflexivity.
Defined.

(** *** The file store *)

Lemma effect_files st st' :
  effect st st' →
  files st' = files st ∨
  ∃ name content,
    files st' = <[Str.path_join UPLOAD_FOLDER name := content]> (files st).
Proof.
  intros [|row _ _ _|now loaded _|now loaded _|now loaded name content _];
    [by left.. | right; by exists name, content].
Qed.

(** No request deletes a file: a path that names a file before a request
    names one after it.  Only the attachment of a PDF writes to the file
    store; after every other request each file has the content it had. *)
Theorem files_are_never_deleted secure_filename r st :
  let st' := (handle secure_filename r st).2 in
  (∀ path, is_Some (files st !! path) → is_Some (files st' !! path)) ∧
  ((∀ now work_id request_files, r ≠ POST_admin_pdf now work_id request_files) →
   files st' = files st).
Proof.
  intros st'. subst st'. split.
  - intros path Hpath.
    destruct (effect_files _ _ (handle_effect secure_filename r st))
      as [->|(name & content & ->)]; [done|].
    destruct (decide (Str.path_join UPLOAD_FOLDER name = path)) as [->|Hne].
    + rewrite lookup_insert_eq. by eexists.
    + by rewrite lookup_insert_ne.
  - intros Hr.
    destruct r as [args|now data|work_id|work_id|now work_id|now work_id
                   |now work_id request_files| |]; cbn [handle].
    + by rewrite WorkList_get_listed.
    + by destruct (WorkList_post_state now data st) as [[row ->]| ->].
    + unfold WorkDetail_get. by destruct (get_or_404 _ _).
    + unfold WorkPDF_get. destruct (get_or_404 _ _); [done|]. by destruct (negb _).
    + unfold WorkGDPR_delete. by destruct (get_or_404 _ _).
    + unfold WorkApproval_post. by destruct (get_or_404 _ _).
    + by destruct (Hr now work_id request_files).
    + done.
    + done.
Qed.




(** ** Attachments *)



Lemma get_commit_ne now other_id loaded assigned st :
  Work.id assigned = Work.id loaded → other_id ≠ Work.id loaded →
  Query.get other_id (works (commit now loaded assigned st))
  = Query.get other_id (works st).
Proof.
  intros Hid Hne. unfold Query.get, commit. simpl.
  induction (works st) as [|row rows IH]; [done|]. simpl.
  case_decide as Heq.
  - rewrite flush_id by done.
    destruct (Z.eqb_spec (Work.id loaded) other_id); [congruence|].
    destruct (Z.eqb_spec (Work.id row) other_id); [congruence | done].
  - by destruct (Z.eqb_spec (Work.id row) other_id).
Qed.

(** Anonymization does not touch the attachment: retrieve PDF answers
    after the anonymization of a work what it answered before, for that
    work and for every other id. *)
Theorem anonymization_keeps_the_attachment now work_id other_id st :
  (WorkPDF_get other_id (WorkGDPR_delete now work_id st).2).1
  = (WorkPDF_get other_id st).1.
Proof.
  unfold WorkGDPR_delete, get_or_404.
  destruct (Query.get work_id (works st)) as [work|] eqn:Hget; [|done].
  cbn [snd]. fold (anonymized work). unfold WorkPDF_get, get_or_404.
  pose proof (get_Some _ _ _ Hget) as [_ Hid].
  destruct (decide (other_id = work_id)) as [->|Hne].
  - rewrite (get_commit now work_id work (anonymized work) st), Hget
      by (done || by destruct work).
    assert (Work.pdf_filename (flush now work (anonymized work)) = Work.pdf_filename work)
      as ->.
    { unfold flush. case_decide; [done | by destruct work]. }
    cbn [fst]. by destruct (negb _).
  - rewrite get_commit_ne by (congruence || by destruct work).
    destruct (Query.get other_id (works st)) as [other|]; [|done].
    cbn [fst]. by destruct (negb _).
Qed.

(** ** The listing among the other views *)

Lemma filter_sublist {A} (f g : A → bool) l :
  (∀ x, f x = true → g x = true) → sublist (List.filter f l) (List.filter g l).
Proof.
  intros Hfg. induction l as [|x l IH]; simpl; [constructor|].
  destruct (f x) eqn:Ef.
  - rewrite (Hfg x Ef). by constructor.
  - destruct (g x); [by constructor | done].
Qed.

Lemma step_cond_delete (args : gmap string string) key k cond w :
  step_cond (args !! k) cond w = true →
  step_cond (delete key args !! k) cond w = true.
Proof.
  destruct (decide (key = k)) as [->|Hne].
  - by rewrite lookup_delete_eq.
  - by rewrite lookup_delete_ne.
Qed.

Lemma listed_delete (args : gmap string string) key w :
  listed args w = true → listed (delete key args) w = true.
Proof.
  unfold listed. rewrite !andb_true_iff.
  intros ((((((? & ?) & ?) & ?) & ?) & ?) & ?).
  split_and!; [done | by apply step_cond_delete..].
Qed.

(** A parameter can only narrow the listing: the works listed for the
    parameters [args] are listed, in the same order, when any one
    parameter is left out. *)
Theorem parameters_narrow_the_listing (args : gmap string string) key st :
  ∃ rows rows',
    WorkList_get args st = (Returned 200 (BList rows), st) ∧
    WorkList_get (delete key args) st = (Returned 200 (BList rows'), st) ∧
    sublist rows rows'.
Proof.
  eexists _, _. split_and!; [apply WorkList_get_listed..|].
  apply fmap_sublist, filter_sublist, listed_delete.
Qed.

(** The listing shows nothing the export does not show: whatever the
    parameters, the works listed are among the works exported, in the same
    order; the export holds every work of the store, approved or not. *)
Theorem listing_is_within_the_export args st :
  ∃ rows exported,
    WorkList_get args st = (Returned 200 (BList rows), st) ∧
    ExportData_get st = (Returned 200 (BList exported), st) ∧
    exported = Work.to_dict <$> works st ∧
    sublist rows exported.
Proof.
  eexists _, _. split_and!; [apply WorkList_get_listed | done..|].
  apply fmap_sublist.
  rewrite <- (filter_true (works st)) at 2. by apply filter_sublist.
Qed.

(** ** Statistics *)

Lemma sum_list_permutation (l1 l2 : list nat) : l1 ≡ₚ l2 → sum_list l1 = sum_list l2.
Proof. induction 1; simpl; lia. Qed.

Lemma py_dict_list_to_map `{Countable K} {V} (rows : list (K * V)) :
  NoDup rows.*1 → py_dict rows = list_to_map rows.
Proof.
  intros Hnodup. apply map_eq. intros k. apply option_eq. intros v.
  by rewrite py_dict_lookup, <- elem_of_list_to_map.
Qed.

Lemma sum_list_fmap_add {A} (f g : A → nat) l :
  sum_list ((λ x, f x + g x)%nat <$> l) = (sum_list (f <$> l) + sum_list (g <$> l))%nat.
Proof. induction l as [|x l IH]; csimpl; [done|]. rewrite IH. lia. Qed.

Lemma sum_list_indicator `{EqDecision K} (a : K) ks :
  NoDup ks → a ∈ ks →
  sum_list ((λ k, if bool_decide (a = k) then 1 else 0)%nat <$> ks) = 1%nat.
Proof.
  induction 1 as [|k ks Hk Hks IH]; [by intros ?%elem_of_nil|].
  intros Hin. csimpl. case_bool_decide as Heq.
  - subst k. rewrite (sum_list_fmap_same 0); [lia|].
    apply Forall_forall. intros k Hin'. rewrite bool_decide_eq_false_2; [done|].
    intros Hk'. subst k. contradiction.
  - apply elem_of_cons in Hin as [Hkw|Hin]; [congruence|]. by rewrite IH.
Qed.

(** Over keys that are distinct and cover the rows, the counts add up to
    the number of rows. *)
Lemma counts_add_up `{EqDecision K} (key : Work.t → K) (ks : list K) rows :
  NoDup ks → (∀ w, w ∈ rows → key w ∈ ks) →
  sum_list ((λ k, List.length (List.filter (λ w, bool_decide (key w = k)) rows)) <$> ks)
  = length rows.
Proof.
  intros Hnodup. induction rows as [|w rows IH]; intros Hcover.
  - clear. by induction ks.
  - rewrite (list_fmap_ext _
               (λ k, (if bool_decide (key w = k) then 1 else 0)
                     + List.length (List.filter (λ w, bool_decide (key w = k)) rows))%nat
               ks) by (intros _ k _; simpl; by case_bool_decide).
    rewrite sum_list_fmap_add, sum_list_indicator, IH; [done | | done |].
    + intros w' Hw'. apply Hcover. by right.
    + apply Hcover. by left.
Qed.

(** The statistics are coherent: the works approved are at most all the
    works and as many as the listing without parameters shows, and the
    counts by year, and the counts by field, add up to the number of
    works. *)
Theorem statistics_add_up st :
  ∃ s rows,
    Statistics_get st = (Returned 200 (BStats s), st) ∧
    WorkList_get ∅ st = (Returned 200 (BList rows), st) ∧
    (approved_works s ≤ total_works s)%nat ∧
    approved_works s = length rows ∧
    sum_values (works_by_year s) = total_works s ∧
    sum_values (works_by_field s) = total_works s.
Proof.
  assert (∀ `{Countable K} (key : Work.t → K),
            sum_values (py_dict (Query.group_by_count key (works st)))
            = length (works st)) as Hsum.
  { intros K ? ? key. unfold sum_values, Query.group_by_count.
    set (rows := (λ k, (k, List.length
                            (List.filter (λ w, bool_decide (key w = k)) (works st))))
                 <$> remove_dups (key <$> works st)).
    assert (rows.*1 = remove_dups (key <$> works st)) as Hkeys.
    { unfold rows. rewrite <- list_fmap_compose. apply list_fmap_id. }
    assert (NoDup rows.*1) as Hnodup by (rewrite Hkeys; apply NoDup_remove_dups).
    rewrite (py_dict_list_to_map rows Hnodup).
    rewrite (sum_list_permutation _ rows.*2)
      by (by apply fmap_Permutation, map_to_list_to_map).
    unfold rows. rewrite <- list_fmap_compose.
    apply counts_add_up; [apply NoDup_remove_dups|].
    intros w Hw. apply elem_of_remove_dups. by apply list_elem_of_fmap_2. }
  eexists _, _. split_and!.
  - reflexivity.
  - apply WorkList_get_listed.
  - cbn. unfold Query.count, Query.filter_by_approved. apply filter_length_le.
  - cbn. unfold Query.count, Query.filter_by_approved. rewrite length_fmap.
    f_equal. apply filter_ext. intros w. by rewrite listed_no_parameters.
  - apply Hsum.
  - apply Hsum.
Qed.

(** ** Categories *)








(** The start-up block seeds once: it never raises; on an empty table it
    writes the five sample categories with the ids 1 to 5, in the order of
    the list; a table that holds a category is left as it is; so running
    the block again, at the next start, changes nothing. *)
Theorem initialization_seeds_once categories :
  ∃ categories',
    initialize_database categories = inr categories' ∧
    (categories = [] → categories' = seeded) ∧
    (categories ≠ [] → categories' = categories) ∧
    initialize_database categories' = inr categories'.
Proof.
  destruct categories as [|c categories].
  - exists seeded. by split_and!.
  - exists (c :: categories). by split_and!.
Qed.

(** ** Columns no response discloses *)

Lemma public_to_dict w1 w2 : public w1 = public w2 → Work.to_dict w1 = Work.to_dict w2.
Proof.
  destruct w1, w2. unfold public. simpl.
  by intros [= -> -> -> -> -> -> -> -> -> -> -> ->].
Qed.

Lemma public_listed args w1 w2 : public w1 = public w2 → listed args w1 = listed args w2.
Proof.
  destruct w1, w2. unfold public, listed, step_cond. simpl.
  by intros [= -> -> -> -> -> -> -> -> -> -> -> ->].
Qed.

Lemma public_id w1 w2 : public w1 = public w2 → Work.id w1 = Work.id w2.
Proof. unfold public. by intros [= ? _]. Qed.

Lemma public_filter (f : Work.t → bool) (rows1 rows2 : list Work.t) :
  (∀ w1 w2, public w1 = public w2 → f w1 = f w2) →
  public <$> rows1 = public <$> rows2 →
  public <$> List.filter f rows1 = public <$> List.filter f rows2.
Proof.
  intros Hf. revert rows2. induction rows1 as [|w1 rows1 IH]; intros [|w2 rows2];
    try done. rewrite !fmap_cons. intros [Hw Hrows]%(inj2 cons). simpl.
  rewrite (Hf w1 w2 Hw). destruct (f w2); [rewrite !fmap_cons; f_equal|]; auto.
Qed.

Lemma public_fmap_to_dict (rows1 rows2 : list Work.t) :
  public <$> rows1 = public <$> rows2 → Work.to_dict <$> rows1 = Work.to_dict <$> rows2.
Proof.
  revert rows2. induction rows1 as [|w1 rows1 IH]; intros [|w2 rows2]; try done.
  rewrite !fmap_cons. intros [Hw Hrows]%(inj2 cons). f_equal; [by apply public_to_dict | auto].
Qed.

Lemma public_get work_id (rows1 rows2 : list Work.t) :
  public <$> rows1 = public <$> rows2 →
  public <$> Query.get work_id rows1 = public <$> Query.get work_id rows2.
Proof.
  unfold Query.get. revert rows2.
  induction rows1 as [|w1 rows1 IH]; intros [|w2 rows2]; try done.
  rewrite !fmap_cons. intros [Hw Hrows]%(inj2 cons). simpl.
  rewrite (public_id _ _ Hw). destruct (Work.id w2 =? work_id); [by simpl; f_equal | auto].
Qed.

Lemma public_ids (rows1 rows2 : list Work.t) :
  public <$> rows1 = public <$> rows2 → Work.id <$> rows1 = Work.id <$> rows2.
Proof.
  revert rows2. induction rows1 as [|w1 rows1 IH]; intros [|w2 rows2]; try done.
  rewrite !fmap_cons. intros [Hw Hrows]%(inj2 cons). f_equal; [by apply public_id | auto].
Qed.

Lemma public_flush now loaded assigned :
  public (flush now loaded assigned) = public assigned.
Proof. unfold flush. case_decide; [by subst | by destruct assigned]. Qed.

Lemma public_commit now loaded1 loaded2 (f : Work.t → Work.t) st1 st2 :
  (∀ w1 w2, public w1 = public w2 → public (f w1) = public (f w2)) →
  public loaded1 = public loaded2 →
  public <$> works st1 = public <$> works st2 →
  public <$> works (commit now loaded1 (f loaded1) st1)
  = public <$> works (commit now loaded2 (f loaded2) st2).
Proof.
  intros Hf Hloaded. unfold commit. simpl.
  generalize (works st1) (works st2).
  induction l as [|w1 rows1 IH]; intros [|w2 rows2]; try done.
  rewrite !fmap_cons. intros [Hw Hrows]%(inj2 cons). f_equal; [|auto].
  rewrite (public_id _ _ Hw), (public_id _ _ Hloaded).
  case_decide; [|done]. rewrite !public_flush. by apply Hf.
Qed.

Lemma public_group_by `{EqDecision K} (key : Work.t → K) (rows1 rows2 : list Work.t) :
  key <$> rows1 = key <$> rows2 →
  Query.group_by_count key rows1 = Query.group_by_count key rows2.
Proof.
  intros Hkeys. unfold Query.group_by_count. rewrite Hkeys.
  apply list_fmap_ext. intros _ k _. f_equal.
  clear -Hkeys. revert rows2 Hkeys.
  induction rows1 as [|w1 rows1 IH]; intros [|w2 rows2]; try done.
  rewrite !fmap_cons. intros [Hw Hrows]%(inj2 cons). simpl. rewrite Hw.
  destruct (bool_decide (key w2 = k)); simpl; [f_equal|]; auto.
Qed.

Lemma public_project {A} (g : Work.t → A) (rows1 rows2 : list Work.t) :
  (∀ w1 w2, public w1 = public w2 → g w1 = g w2) →
  public <$> rows1 = public <$> rows2 → g <$> rows1 = g <$> rows2.
Proof.
  intros Hg. revert rows2.
  induction rows1 as [|w1 rows1 IH]; intros [|w2 rows2]; try done.
  rewrite !fmap_cons. intros [Hw Hrows]%(inj2 cons). f_equal; auto.
Qed.

Lemma handle_same_public secure_filename r st1 st2 :
  same_public st1 st2 →
  (handle secure_filename r st1).1 = (handle secure_filename r st2).1 ∧
  same_public (handle secure_filename r st1).2 (handle secure_filename r st2).2.
Proof.
  intros [Hworks Hfiles].
  destruct r as [args|now data|work_id|work_id|now work_id|now work_id
                 |now work_id request_files| |]; cbn [handle].
  - rewrite !WorkList_get_listed. cbn [fst snd]. split; [|done].
    do 2 f_equal. apply public_fmap_to_dict, public_filter; [|done].
    intros. by apply public_listed.
  - rewrite !WorkList_post_unfold.
    destruct (work_of_body data) as [e|work]; [done|].
    unfold add_commit. unfold next_id. rewrite (public_ids _ _ Hworks).
    repeat match goal with
           | |- context [mbind _ ?m] => destruct m; simpl; [done|]
           end.
    split; [done|]. split; simpl; [|done]. by rewrite !fmap_app, Hworks.
  - unfold WorkDetail_get, get_or_404.
    pose proof (public_get work_id _ _ Hworks) as Hget.
    destruct (Query.get work_id (works st1)) as [w1|],
             (Query.get work_id (works st2)) as [w2|]; try done.
    apply (inj Some) in Hget as Hw. cbn [fst snd]. by rewrite (public_to_dict _ _ Hw).
  - unfold WorkPDF_get, get_or_404.
    pose proof (public_get work_id _ _ Hworks) as Hget.
    destruct (Query.get work_id (works st1)) as [w1|],
             (Query.get work_id (works st2)) as [w2|]; try done.
    apply (inj Some) in Hget as Hw.
    assert (Work.pdf_filename w1 = Work.pdf_filename w2) as ->
      by (revert Hw; unfold public; by intros [= _ _ _ _ _ _ _ _ _ ? _ _]).
    destruct (negb _); [done|]. cbn [fst snd]. unfold send_file. by rewrite Hfiles.
  - unfold WorkGDPR_delete, get_or_404.
    pose proof (public_get work_id _ _ Hworks) as Hget.
    destruct (Query.get work_id (works st1)) as [w1|],
             (Query.get work_id (works st2)) as [w2|]; try done.
    apply (inj Some) in Hget as Hw. cbn [fst snd]. split; [done|]. split; [|done].
    apply (public_commit now w1 w2 anonymized); [|done..].
    intros [] []. unfold public. simpl. by intros [= -> -> -> -> -> -> -> -> -> -> -> ->].
  - unfold WorkApproval_post, get_or_404.
    pose proof (public_get work_id _ _ Hworks) as Hget.
    destruct (Query.get work_id (works st1)) as [w1|],
             (Query.get work_id (works st2)) as [w2|]; try done.
    apply (inj Some) in Hget as Hw. cbn [fst snd]. split; [done|]. split; [|done].
    apply (public_commit now w1 w2 (Work.set_approved true)); [|done..].
    intros [] []. unfold public. simpl. by intros [= -> -> -> -> -> -> -> -> -> -> -> ->].
  - unfold WorkPDFUpload_post, get_or_404.
    pose proof (public_get work_id _ _ Hworks) as Hget.
    destruct (Query.get work_id (works st1)) as [w1|],
             (Query.get work_id (works st2)) as [w2|]; try done.
    apply (inj Some) in Hget as Hw.
    destruct (request_files !! "pdf") as [file|]; [|done].
    destruct (String.eqb _ _); [done|]. destruct (_ && _); [|done].
    cbn [fst snd]. split; [done|]. split.
    + apply (public_commit now w1 w2 (Work.set_pdf_filename _)
               (save file _ st1) (save file _ st2)); [|done..].
      intros [] []. unfold public. simpl.
      by intros [= -> -> -> -> -> -> -> -> -> -> -> ->].
    + simpl. by rewrite Hfiles.
  - unfold Statistics_get, Query.count, Query.filter_by_approved. cbn [fst snd].
    split; [|done]. do 3 f_equal.
    + rewrite <- !(length_fmap public). by rewrite Hworks.
    + rewrite <- !(length_fmap public). f_equal. apply public_filter; [|done].
      intros w1 w2. unfold public. by intros [= _ _ _ _ _ _ _ _ _ _ ? _].
    + f_equal. apply public_group_by, public_project; [|done].
      intros w1 w2. unfold public. by intros [= _ _ _ _ ? _ _ _ _ _ _ _].
    + f_equal. apply public_group_by, public_project; [|done].
      intros w1 w2. unfold public. by intros [= _ _ _ _ _ ? _ _ _ _ _ _].
  - unfold ExportData_get. cbn [fst snd]. split; [|done].
    do 2 f_equal. by apply public_fmap_to_dict.
Qed.

(** No response discloses [author_email], [gdpr_consent] or
    [updated_at]: two archives that differ only in these columns answer
    every sequence of requests in the same way. *)
Theorem hidden_columns_are_not_disclosed secure_filename requests st1 st2 :
  same_public st1 st2 →
  responses secure_filename requests st1 = responses secure_filename requests st2.
Proof.
  revert st1 st2. induction requests as [|r requests IH]; intros st1 st2 Hsame; [done|].
  simpl. destruct (handle_same_public secure_filename r st1 st2 Hsame) as [-> Hnext].
  f_equal. by apply IH.
Qed.

(** Two archives that differ in the e-mail address of the author of work 1. *)
Lemma hidden_columns_are_not_disclosed_witness :
  let requests := [GET_work 1; GET_admin_export; DELETE_work_gdpr t1 1; GET_works ∅] in
  let other := mkState [Work.set_author_email (Some "jina@adresa.cz") fotony; kyseliny] ∅ in
  responses (λ name, name) requests archive = responses (λ name, name) requests other.
Proof.
  apply (hidden_columns_are_not_disclosed (λ name, name)
           [GET_work 1; GET_admin_export; DELETE_work_gdpr t1 1; GET_works ∅]
           archive
           (mkState [Work.set_author_email (Some "jina@adresa.cz") fotony; kyseliny] ∅)).
  split; reflexivity.
Defined.
